(** * tachyon: the task runner and the process builtins

    A shallow embedding of [runner.go] and of the process part of
    [builtin.go].  Go values are modelled as follows.

    - A Go [string] is a Rocq [string] (a sequence of bytes); [len] is
      [String.length].
    - A Go [error] is a value of [error]; the nil error is [None].
    - A function returning a pointer and an [error] returns a pair of
      options, so that the four shapes the Go signature allows stay
      expressible.
    - A [map[string]T] is a [gmap string T], a set of names kept as
      [map[string]struct{}] is a [gset string].
    - A panic (index out of range, failed type assertion, nil
      dereference) is an explicit outcome. *)

From Stdlib Require Import ZArith Ascii String DecimalString.
From stdpp Require Import gmap strings list.

Local Open Scope string_scope.
Local Open Scope Z_scope.

(** ** Results and errors *)

(** Modelled from the spec: the [Value] holder ([Any(v)]) is not part of
    the files at hand; the variants are the dynamic types the modelled
    code stores and reads back with [Read().(T)]. *)
Inductive Value :=
| VInt (z : Z)
| VStr (s : string)
| VBool (b : bool).

#[global] Instance Value_eq_dec : EqDecision Value.
Proof. solve_decision. Defined.

(** Modelled from the spec: [Result] is declared outside the files at
    hand.  [builtin.go] shows [ResultData] to be a map from strings to
    [Value] (the composite literal in [CopyCmd.Run]); the spec gives a
    [Result] its [changed] status at creation. *)
Record Result := mkResult {
  Changed : bool;
  Data : gmap string Value
}.

#[global] Instance Result_eq_dec : EqDecision Result.
Proof. solve_decision. Defined.

Definition ResultData_Set (key : string) (v : Value)
    (d : gmap string Value) : gmap string Value :=
  <[key := v]> d.

Definition NewResult (changed : bool) : Result := mkResult changed ∅.

Definition WrapResult (changed : bool) (data : gmap string Value) : Result :=
  mkResult changed data.

Definition Result_Add (key : string) (v : Value) (r : Result) : Result :=
  mkResult (Changed r) (ResultData_Set key v (Data r)).

Definition Result_Get (r : Result) (key : string) : option Value :=
  Data r !! key.

(** The two dynamic kinds of error the code tells apart with
    a type assertion to [exec.ExitError]. *)
Inductive error :=
| ExitError (status : Z)
| OtherError (msg : string).

#[global] Instance error_eq_dec : EqDecision error.
Proof. solve_decision. Defined.

(** [%d] of an [int]. *)
Definition itoa (z : Z) : string := NilZero.string_of_int (Z.to_int z).

(** [err.Error()]. *)
Definition Error (e : error) : string :=
  match e with
  | ExitError status => "exit status " ++ itoa status
  | OtherError msg => msg
  end.

Definition newline : ascii := "010"%char.
Definition space : ascii := " "%char.
Definition quote : ascii := "034"%char.

(** ** builtin.go: running a process *)

Module Builtin.

(** What the operating system does with a command line: whether the two
    pipes could be set up (if not, with which message), what the child
    wrote, and how it ended. *)
Inductive Termination :=
| Exit (status : Z)
| StartFailed.

Record Child := mkChild {
  stdout_pipe : option string;
  stderr_pipe : option string;
  child_stdout : string;
  child_stderr : string;
  child_end : Termination
}.

(** [exec.Cmd.Wait]: nil when the child exits with status 0, an
    [exec.ExitError] when it ran and ended otherwise, and the plain
    error [exec: not started] when [Start] (whose error [captureCmd]
    drops) did not create a process. *)
Definition Cmd_Wait (t : Termination) : option error :=
  match t with
  | Exit status =>
      if decide (status = 0) then None else Some (ExitError status)
  | StartFailed => Some (OtherError "exec: not started")
  end.

(** The reader loop of [captureCmd]: [ReadSlice('\n')] hands over one
    line at a time; the loop stops at the first error, which is the end
    of input (an unterminated last line is not written to the buffer) or
    a line that does not fit bufio's 4096-byte buffer.  [cur] is the part
    of the current line already consumed. *)
Fixpoint read_lines (cur : string) (s : string) : string :=
  match s with
  | EmptyString => ""
  | String c s' =>
      if decide (c = newline) then
        if decide (String.length cur + 1 ≤ 4096)%nat
        then cur ++ String newline (read_lines "" s')
        else ""
      else read_lines (cur ++ String c "") s'
  end.

(** [captureCmd]; the echo selected by [show] goes to the terminal and
    leaves the returned triple unchanged. *)
Definition captureCmd (c : Child) (show : bool)
    : string * string * option error :=
  match stdout_pipe c with
  | Some msg => ("", "", Some (OtherError msg))
  | None =>
      match stderr_pipe c with
      | Some msg => ("", "", Some (OtherError msg))
      | None =>
          (read_lines "" (child_stdout c),
           read_lines "" (child_stderr c),
           Cmd_Wait (child_end c))
      end
  end.

Record CommandResult := mkCommandResult {
  ReturnCode : Z;
  Stdout : string;
  Stderr : string
}.

(** [strings.Replace(s, "\n", " ", -1)]. *)
Fixpoint Replace_newlines (s : string) : string :=
  match s with
  | EmptyString => EmptyString
  | String c s' =>
      String (if decide (c = newline) then space else c) (Replace_newlines s')
  end.

(** [renderShellResult]; [None] is the panic of a failed type assertion. *)
Definition renderShellResult (res : Result) : option (string * bool) :=
  match Result_Get res "rc" with
  | None => Some ("", false)
  | Some rcv =>
  match Result_Get res "stdout" with
  | None => Some ("", false)
  | Some stdoutv =>
  match Result_Get res "stderr" with
  | None => Some ("", false)
  | Some stderrv =>
  match rcv, stdoutv, stderrv with
  | VInt rc, VStr stdout, VStr stderr =>
      if decide (rc = 0 ∧ String.length stdout = 0%nat
                 ∧ String.length stderr = 0%nat)
      then Some ("", true)
      else if decide (String.length stderr = 0%nat
                      ∧ (String.length stdout < 60)%nat)
      then Some ("rc: " ++ itoa rc ++ ", stdout: " ++ String quote
                   (Replace_newlines stdout ++ String quote ""), true)
      else Some ("", false)
  | _, _, _ => None
  end end end end.

Section Exec.

(** The operating system: the child a command line gives rise to, under
    the inherited environment ([None]) or an explicit one. *)
Variable spawn : option (list string) → string → list string → Child.

(** [env.Env.config.ShowCommandOutput]. *)
Variable ShowCommandOutput : bool.

(** [strings.TrimSpace], of Go's standard library. *)
Variable TrimSpace : string → string.

(** [RunCommand]; [None] is the panic of [parts[0]] on an empty slice. *)
Definition RunCommand (parts : list string)
    : option (option CommandResult * option error) :=
  match parts with
  | [] => None
  | name :: args =>
      let c := spawn None name args in
      let rc := 0 in
      let '(stdout, stderr, err) := captureCmd c ShowCommandOutput in
      match err with
      | Some (ExitError _) =>
          let rc := 1 in
          Some (Some (mkCommandResult rc stdout stderr), None)
      | Some e => Some (None, Some e)
      | None => Some (Some (mkCommandResult rc stdout stderr), None)
      end
  end.

Definition RunCommandInEnv (unixEnv : list string) (parts : list string)
    : option (option CommandResult * option error) :=
  match parts with
  | [] => None
  | name :: args =>
      let c := spawn (Some unixEnv) name args in
      let rc := 0 in
      let '(stdout, stderr, err) := captureCmd c ShowCommandOutput in
      match err with
      | Some (ExitError _) =>
          let rc := 1 in
          Some (Some (mkCommandResult rc stdout stderr), None)
      | Some e => Some (None, Some e)
      | None => Some (Some (mkCommandResult rc stdout stderr), None)
      end
  end.

(** The part of [runCmd] that follows a successful [RunCommand]: the
    three keys set first, then the summary. *)
Definition shellFields (cmd : CommandResult) : Result :=
  let r := NewResult true in
  let r := Result_Add "rc" (VInt (ReturnCode cmd)) r in
  let r := Result_Add "stdout" (VStr (TrimSpace (Stdout cmd))) r in
  Result_Add "stderr" (VStr (TrimSpace (Stderr cmd))) r.

Definition shellResult (cmd : CommandResult) : option Result :=
  let r := shellFields cmd in
  match renderShellResult r with
  | None => None
  | Some (str, true) => Some (Result_Add "_result" (VStr str) r)
  | Some (_, false) => Some r
  end.

(** [runCmd]; a nil [CommandResult] next to a nil error, which
    [RunCommand] never returns, would be dereferenced. *)
Definition runCmd (parts : list string)
    : option (option Result * option error) :=
  match RunCommand parts with
  | None => None
  | Some (_, Some err) => Some (None, Some err)
  | Some (None, None) => None
  | Some (Some cmd, None) =>
      match shellResult cmd with
      | None => None
      | Some r => Some (Some r, None)
      end
  end.

End Exec.

End Builtin.

(** ** runner.go: plays, tasks and the runner *)

(** A raw Go value ([interface{}]) as a scope holds it: a plain value
    (play variables, loop items, module arguments) or the [*Result] that
    [Register] binds, which may be nil. *)
Inductive Binding :=
| BValue (v : Value)
| BResult (res : option Result).

#[global] Instance Binding_eq_dec : EqDecision Binding.
Proof. solve_decision. Defined.

(** Modelled from the spec: [Task] is declared outside the files at hand;
    each field stands for the accessor method of the same name.  [Items]
    is [None] for a nil slice. *)
Module Task.
Record t := mk {
  Name : string;
  Command : string;
  Args : string;
  When : string;
  Items : option (list Binding);
  Register : string;
  Notify : list string;
  Async : bool;
  Future : string;
  IncludeVars : option (gmap string Binding)
}.
End Task.
Abbreviation Task := Task.t.

(** Modelled from the spec: [Module] and [Play] are declared outside the
    files at hand. *)
Record TaskModule := mkModule {
  ModTasks : list Task
}.

Record Play := mkPlay {
  Vars : gmap string Binding;
  Tasks : list Task;
  Handlers : list Task;
  Modules : gmap string TaskModule
}.

(** The scopes the runner builds.  [PlayScope] is the [*FutureScope] of
    the play being run: [Run] passes that one object both as [s] and as
    [fs], so a scope is kept as a path to it and read against its current
    contents. *)
Inductive Scope :=
| PlayScope
| NestedScope (frame : gmap string Binding) (parent : Scope).

Definition NewNestedScope (parent : Scope) : Scope := NestedScope ∅ parent.

(** [Set] on a nested scope writes its own frame. *)
Definition NestedScope_Set (key : string) (val : Binding) (ns : Scope) : Scope :=
  match ns with
  | PlayScope => PlayScope
  | NestedScope frame parent => NestedScope (<[key := val]> frame) parent
  end.

(** The [*FutureScope] argument [fs] of [runTask]: the object of the
    running play, or nil. *)
Inductive FutureScopePtr :=
| ThePlay
| Nil.

Definition boolify (str : string) : bool :=
  if decide (str = "") then false
  else if decide (str = "false") then false
  else if decide (str = "no") then false
  else true.

(** [PriorityScope.Get], over the [Get] of the scope it wraps. *)
Definition PriorityScope_Get (task : option (gmap string Binding))
    (rest : string → option Binding) (key : string) : option Binding :=
  match task with
  | Some vars =>
      match vars !! key with
      | Some v => Some v
      | None => rest key
      end
  | None => rest key
  end.

Module Runner.

Section Types.

(** The registered commands [MakeCommand] can build, and what their
    [Run] acts upon. *)
Context {Cmd World : Type}.

Record ModuleRun := mkModuleRun {
  m_Play : Play;
  m_Task : Task;
  m_Module : TaskModule;
  m_Scope : Scope
}.

(** The [Command] interface has two kinds of inhabitants. *)
Inductive Command :=
| Builtin (c : Cmd)
| ModuleCmd (m : ModuleRun).

(** The producer a [Future] closes over, and the command an
    [AsyncAction]'s goroutine runs.  Both run in the background: what
    they do is not part of [runTask] and reaches the run only through the
    last three collaborators below. *)
Record Future := mkFuture {
  f_Task : Task;
  f_cmd : Command;
  f_str : string
}.

Record AsyncAction := mkAsyncAction {
  a_Task : Task;
  a_cmd : Command;
  a_str : string
}.

(** Modelled from the spec: [FutureScope] is declared outside the files
    at hand: a scope (a local frame over the play variables that seed it)
    that also owns a registry from names to futures. *)
Record FutureScope := mkFutureScope {
  fs_frame : gmap string Binding;
  fs_seed : gmap string Binding;
  fs_futures : gmap string Future
}.

Definition NewFutureScope (vars : gmap string Binding) : FutureScope :=
  mkFutureScope ∅ vars ∅.

(** Modelled from the spec: [Get] looks in the local frame, then in the
    play variables.  A name bound in the registry of futures only is not
    looked up: reading it blocks until the future is resolved, which
    this embedding does not model, so that nothing below is stated of a
    read of such a name. *)
Definition FutureScope_Get (fs : FutureScope) (key : string) : option Binding :=
  match fs_frame fs !! key with
  | Some v => Some v
  | None => fs_seed fs !! key
  end.

(** [Get] of a scope, given the current contents of the play's
    [FutureScope]. *)
Fixpoint Scope_Get (s : Scope) (fs : FutureScope) (key : string)
    : option Binding :=
  match s with
  | PlayScope => FutureScope_Get fs key
  | NestedScope frame parent =>
      match frame !! key with
      | Some v => Some v
      | None => Scope_Get parent fs key
      end
  end.

(** [&PriorityScope{task, rest}], as its [Get]. *)
Definition PriorityScope (task : option (gmap string Binding)) (rest : Scope)
    (fs : FutureScope) : string → option Binding :=
  PriorityScope_Get task (Scope_Get rest fs).

(** [RunResult]; the elapsed wall-clock time is left out. *)
Record RunResult := mkRunResult {
  r_Task : Task;
  r_Result : option Result
}.

(** The calls the [Reporter] receives. *)
Inductive Event :=
| StartTasks
| FinishTasks
| StartHandlers
| FinishHandlers
| StartTask (task : Task) (cmd : Command) (name args : string)
| FinishTask (task : Task) (cmd : Command) (res : option Result).

(** Everything a run reads and writes: the runner's notify set and result
    history, the actions handed to goroutines, the reporter's log, the
    future scope of the play being run, and the world commands act on. *)
Record State := mkState {
  to_notify : gset string;
  Results : list RunResult;
  spawned : list AsyncAction;
  reported : list Event;
  scope : FutureScope;
  world : World
}.

Inductive Outcome (A : Type) :=
| Ret (a : A) (st : State)
| Panic
| OutOfFuel.
Arguments Ret {A} a st.
Arguments Panic {A}.
Arguments OutOfFuel {A}.

Definition M (A : Type) : Type := State → Outcome A.

End Types.

Arguments Command : clear implicits.
Arguments Future : clear implicits.
Arguments AsyncAction : clear implicits.
Arguments FutureScope : clear implicits.
Arguments Event : clear implicits.
Arguments State : clear implicits.
Arguments Outcome : clear implicits.
Arguments M : clear implicits.
Arguments Scope_Get {Cmd} s fs key.
Arguments PriorityScope {Cmd} task rest fs.
Arguments Ret {Cmd World A} a st.
Arguments Panic {Cmd World A}.
Arguments OutOfFuel {Cmd World A}.

(** *** The collaborators

    Template expansion, shorthand-argument parsing and command lookup
    read a scope through its [Get]; [Cmd_Run] is [Run] of a registered
    command, for the task and the expanded argument text, and is taken to
    return: a command that panics, as [CommandCmd.Run] does on a text
    that splits into no word, is outside this embedding of the runner,
    and what is stated of a call that runs a command is stated of
    commands that return (module [Commands] embeds the commands of
    [builtin.go] with their panics).  The last
    three fields say what the background work has left behind at the
    places where [Run] meets it: the results [fs.Results()] returns, the
    state in which [r.wait.Wait()] returns, once the listener has written
    down the actions that finished, and the world in which [fs.Wait()]
    returns, once the producers of the futures have run. *)
Class Collaborators (Cmd World : Type) := {
  ExpandVars : (string → option Binding) → string → string + error;
  ParseSimpleMap :
    (string → option Binding) → string → gmap string Binding + error;
  MakeCommand : (string → option Binding) → Task → string → Cmd + error;
  Cmd_Run :
    Cmd → Task → string → World → (option Result * option error) * World;
  FutureScope_Results : State Cmd World → list RunResult;
  wait_Wait : State Cmd World → State Cmd World;
  FutureScope_Wait : State Cmd World → World
}.

Section Run.

Context `{Collaborators Cmd World}.

Local Abbreviation M := (M Cmd World).
Local Abbreviation State := (State Cmd World).
Local Abbreviation Command := (Command Cmd).
Local Abbreviation Future := (Future Cmd).
Local Abbreviation AsyncAction := (AsyncAction Cmd).
Local Abbreviation FutureScope := (FutureScope Cmd).
Local Abbreviation Event := (Event Cmd).

#[global] Instance M_ret : MRet M := λ A a st, Ret a st.

#[global] Instance M_bind : MBind M := λ A B f m st,
  match m st with
  | Ret a st' => f a st'
  | Panic => Panic
  | OutOfFuel => OutOfFuel
  end.

(** [x ←? m; k]: [x, err := m; if err != nil return err; k]. *)
Definition orReturn {A} (m : M (A + error)) (k : A → M (option error))
    : M (option error) :=
  r ← m; match r with inl a => k a | inr err => mret (Some err) end.

Notation "x ←? m ; k" := (orReturn m (λ x, k))
  (at level 20, m at level 100, k at level 200, only parsing).

Fixpoint forEach {A} (f : A → M unit) (l : list A) : M unit :=
  match l with
  | [] => mret ()
  | x :: l' => f x;; forEach f l'
  end.

(** *** Runner methods *)

Definition AddNotify (n : string) : M unit := λ st,
  Ret () (mkState ({[n]} ∪ to_notify st) (Results st) (spawned st)
            (reported st) (scope st) (world st)).

Definition ShouldRunHandler (name : string) : M bool := λ st,
  Ret (bool_decide (name ∈ to_notify st)) st.

Definition report (e : Event) : M unit := λ st,
  Ret () (mkState (to_notify st) (Results st) (spawned st)
            (reported st ++ [e]) (scope st) (world st)).

Definition appendResults (rs : list RunResult) : M unit := λ st,
  Ret () (mkState (to_notify st) (Results st ++ rs) (spawned st)
            (reported st) (scope st) (world st)).

Definition setScope (fs : FutureScope) : M unit := λ st,
  Ret () (mkState (to_notify st) (Results st) (spawned st)
            (reported st) fs (world st)).

Definition setWorld (w : World) : M unit := λ st,
  Ret () (mkState (to_notify st) (Results st) (spawned st)
            (reported st) (scope st) w).

(** [asyncAction.Init(r)] and the [go] statement. *)
Definition launch (a : AsyncAction) : M unit := λ st,
  Ret () (mkState (to_notify st) (Results st) (spawned st ++ [a])
            (reported st) (scope st) (world st)).

(** [fs.Set(name, res)] and [fs.AddFuture(name, future)] write into the
    object [fs] points to; through the nil pointer they panic. *)
Definition FutureScope_Set (fs : FutureScopePtr) (key : string)
    (val : Binding) : M unit :=
  match fs with
  | Nil => λ _, Panic
  | ThePlay => λ st,
      setScope (mkFutureScope (<[key := val]> (fs_frame (scope st)))
                  (fs_seed (scope st)) (fs_futures (scope st))) st
  end.

Definition AddFuture (fs : FutureScopePtr) (key : string) (f : Future)
    : M unit :=
  match fs with
  | Nil => λ _, Panic
  | ThePlay => λ st,
      setScope (mkFutureScope (fs_frame (scope st)) (fs_seed (scope st))
                  (<[key := f]> (fs_futures (scope st)))) st
  end.

(** A collaborator applied to the current contents of a scope. *)
Definition reading {A} (f : (string → option Binding) → A)
    (get : FutureScope → string → option Binding) : M A := λ st,
  Ret (f (get (scope st))) st.

Definition Builtin_Run (c : Cmd) (task : Task) (str : string)
    : M (option Result * option error) := λ st,
  let '(out, w) := Cmd_Run c task str (world st) in
  (setWorld w;; mret out) st.

(** The result the runner puts in place of a command error. *)
Definition failedResult (err : error) : Result :=
  let res := NewResult false in
  let res := mkResult (Changed res)
               (ResultData_Set "failed" (VBool true) (Data res)) in
  mkResult (Changed res)
    (ResultData_Set "error" (VStr (Error err)) (Data res)).

(** What follows [res, err := cmd.Run(ce, str)], word for word the same
    in [runTaskItems] and in the synchronous branch of [runTask]. *)
Definition complete (task : Task) (cmd : Command) (fs : FutureScopePtr)
    (out : option Result * option error) : M unit :=
  let '(res, err) := out in
  (if decide (Task.Register task = "") then mret ()
   else FutureScope_Set fs (Task.Register task) (BResult res));;
  let res := match err with
             | Some e => Some (failedResult e)
             | None => res
             end in
  appendResults [mkRunResult task res];;
  report (FinishTask task cmd res);;
  match err with
  | None => forEach AddNotify (Task.Notify task)
  | Some _ => mret ()
  end.

Fixpoint runTaskItems (play : Play) (task : Task) (s : Scope)
    (fs : FutureScopePtr) (items : list Binding) : M (option error) :=
  match items with
  | [] => mret None
  | item :: rest =>
      let ns := NestedScope_Set "item" item (NewNestedScope s) in
      name ←? reading (λ g, ExpandVars g (Task.Name task)) (Scope_Get ns);
      str ←? reading (λ g, ExpandVars g (Task.Args task)) (Scope_Get ns);
      cmd ←? reading (λ g, MakeCommand g task str) (Scope_Get ns);
      report (StartTask task (Builtin cmd) name str);;
      out ← Builtin_Run cmd task str;
      complete task (Builtin cmd) fs out;;
      runTaskItems play task s fs rest
  end.

Section Body.

(** [runTask], as called from [ModuleRun.Run]. *)
Variable runTask : Play → Task → Scope → FutureScopePtr → M (option error).

(** [ModuleRun.Run]: [m.FutureScope] is never assigned, so the tasks of
    a module run with a nil [fs]; what [runTask] returns is dropped. *)
Fixpoint ModuleRun_loop (m : ModuleRun) (args : string) (tasks : list Task)
    : M (option Result * option error) :=
  match tasks with
  | [] => mret (Some (NewResult true), None)
  | task :: rest =>
      let ns := NewNestedScope (m_Scope m) in
      sm ← reading (λ g, ParseSimpleMap g args) (Scope_Get ns);
      match sm with
      | inr err => mret (None, Some err)
      | inl sm =>
          let ns := map_fold NestedScope_Set ns sm in
          _ ← runTask (m_Play m) task ns Nil;
          ModuleRun_loop m args rest
      end
  end.

Definition ModuleRun_Run (m : ModuleRun) (args : string)
    : M (option Result * option error) :=
  ModuleRun_loop m args (ModTasks (m_Module m)).

Definition Command_Run (cmd : Command) (task : Task) (str : string)
    : M (option Result * option error) :=
  match cmd with
  | Builtin c => Builtin_Run c task str
  | ModuleCmd m => ModuleRun_Run m str
  end.

(** The [When] gate at the head of [runTask]: whether to go on, or the
    error of the expansion. *)
Definition whenGate (task : Task) (s : Scope) : M (bool + error) :=
  let ps := PriorityScope (Task.IncludeVars task) s in
  if decide (Task.When task = "") then mret (inl true)
  else
    when ← reading (λ g, ExpandVars g (Task.When task)) ps;
    mret (match when with
          | inl when => inl (boolify when)
          | inr err => inr err
          end).

(** The command of a task that has no items: the play's module of that
    name, else the registered command. *)
Definition resolveCommand (play : Play) (task : Task) (s : Scope)
    (str : string) : M (Command + error) :=
  let ps := PriorityScope (Task.IncludeVars task) s in
  match Modules play !! Task.Command task with
  | Some md => mret (inl (ModuleCmd (mkModuleRun play task md s)))
  | None =>
      cmd ← reading (λ g, MakeCommand g task str) ps;
      mret (match cmd with
            | inl c => inl (Builtin c)
            | inr err => inr err
            end)
  end.

Definition runTask_body (play : Play) (task : Task) (s : Scope)
    (fs : FutureScopePtr) : M (option error) :=
  let ps := PriorityScope (Task.IncludeVars task) s in
  go ←? whenGate task s;
  if go : bool then
    match Task.Items task with
    | Some items => runTaskItems play task s fs items
    | None =>
        name ←? reading (λ g, ExpandVars g (Task.Name task)) ps;
        str ←? reading (λ g, ExpandVars g (Task.Args task)) ps;
        cmd ←? resolveCommand play task s str;
        report (StartTask task cmd name str);;
        if decide (Task.Future task = "") then
          if Task.Async task then
            launch (mkAsyncAction task cmd str);;
            mret None
          else
            out ← Command_Run cmd task str;
            complete task cmd fs out;;
            mret None
        else
          AddFuture fs (Task.Future task) (mkFuture task cmd str);;
          mret None
    end
  else mret None.

End Body.

(** [runTask]; [fuel] bounds the depth of module calls, which Go leaves
    unbounded. *)
Fixpoint runTask (fuel : nat) (play : Play) (task : Task) (s : Scope)
    (fs : FutureScopePtr) : M (option error) :=
  match fuel with
  | O => λ _, OutOfFuel
  | S fuel' => runTask_body (runTask fuel') play task s fs
  end.

(** The two loops of [Run] over one play. *)
Fixpoint runTasks (fuel : nat) (play : Play) (tasks : list Task)
    : M (option error) :=
  match tasks with
  | [] => mret None
  | task :: rest =>
      err ← runTask fuel play task PlayScope ThePlay;
      match err with
      | Some e => mret (Some e)
      | None => runTasks fuel play rest
      end
  end.

Fixpoint runHandlers (fuel : nat) (play : Play) (tasks : list Task)
    : M (option error) :=
  match tasks with
  | [] => mret None
  | task :: rest =>
      due ← ShouldRunHandler (Task.Name task);
      if due : bool then
        err ← runTask fuel play task PlayScope ThePlay;
        match err with
        | Some e => mret (Some e)
        | None => runHandlers fuel play rest
        end
      else runHandlers fuel play rest
  end.

Fixpoint taskPhase (fuel : nat) (plays : list Play) : M (option error) :=
  match plays with
  | [] => mret None
  | play :: rest =>
      setScope (NewFutureScope (Vars play));;
      err ← runTasks fuel play (Tasks play);
      match err with
      | Some e => mret (Some e)
      | None =>
          (λ st, appendResults (FutureScope_Results st) st);;
          taskPhase fuel rest
      end
  end.

Fixpoint handlerPhase (fuel : nat) (plays : list Play) : M (option error) :=
  match plays with
  | [] => mret None
  | play :: rest =>
      setScope (NewFutureScope (Vars play));;
      err ← runHandlers fuel play (Handlers play);
      match err with
      | Some e => mret (Some e)
      | None =>
          (λ st, setWorld (FutureScope_Wait st) st);;
          handlerPhase fuel rest
      end
  end.

(** [Runner.Run]; the start time and the run time are left out. *)
Definition Run (fuel : nat) (plays : list Play) : M (option error) :=
  report StartTasks;;
  err ← taskPhase fuel plays;
  match err with
  | Some e => mret (Some e)
  | None =>
      report FinishTasks;;
      (λ st, Ret () (wait_Wait st));;
      report StartHandlers;;
      err ← handlerPhase fuel plays;
      match err with
      | Some e => mret (Some e)
      | None =>
          report FinishHandlers;;
          mret None
      end
  end.

(** *** Notions used to state the properties *)

(** The result recorded in the history for what a command returned. *)
Definition recorded (out : option Result * option error) : option Result :=
  match out.2 with
  | Some e => Some (failedResult e)
  | None => out.1
  end.

(** A task without items whose gate is open, whose name and arguments
    expand to [name] and [str] and whose command resolves to [cmd]: it
    goes on to the dispatch proper. *)
Definition ready (play : Play) (task : Task) (s : Scope) (st : State)
    (name str : string) (cmd : Command) : Prop :=
  let ps := PriorityScope (Task.IncludeVars task) s (scope st) in
  whenGate task s st = Ret (inl true) st
  ∧ Task.Items task = None
  ∧ ExpandVars ps (Task.Name task) = inl name
  ∧ ExpandVars ps (Task.Args task) = inl str
  ∧ resolveCommand play task s str st = Ret (inl cmd) st.

(** The item of a loop is ready when, in the child scope that binds
    [item], the name and the arguments expand to [name] and [str] and
    [MakeCommand] gives [c]. *)
Definition item_ready (task : Task) (s : Scope) (st : State)
    (item : Binding) (name str : string) (c : Cmd) : Prop :=
  let ns := NestedScope_Set "item" item (NewNestedScope s) in
  let get := Scope_Get ns (scope st) in
  ExpandVars get (Task.Name task) = inl name
  ∧ ExpandVars get (Task.Args task) = inl str
  ∧ MakeCommand get task str = inl c.

(** The state [complete] leaves when it does not panic. *)
Definition completed (task : Task) (cmd : Command)
    (out : option Result * option error) (st : State) : State :=
  mkState
    (match out.2 with
     | None => list_to_set (Task.Notify task) ∪ to_notify st
     | Some _ => to_notify st
     end)
    (Results st ++ [mkRunResult task (recorded out)])
    (spawned st)
    (reported st ++ [FinishTask task cmd (recorded out)])
    (if decide (Task.Register task = "") then scope st
     else mkFutureScope
            (<[Task.Register task := BResult out.1]> (fs_frame (scope st)))
            (fs_seed (scope st)) (fs_futures (scope st)))
    (world st).

(** [item] cannot be run: the first of the two expansions and of the
    command lookup that fails does so with [err]. *)
Definition item_fails (task : Task) (s : Scope) (st : State)
    (item : Binding) (err : error) : Prop :=
  let ns := NestedScope_Set "item" item (NewNestedScope s) in
  let get := Scope_Get ns (scope st) in
  ExpandVars get (Task.Name task) = inr err
  ∨ (∃ name, ExpandVars get (Task.Name task) = inl name
       ∧ (ExpandVars get (Task.Args task) = inr err
          ∨ ∃ str, ExpandVars get (Task.Args task) = inl str
              ∧ MakeCommand get task str = inr err)).

(** One sub-execution of an item loop, from [st] to [st']: with [item]
    bound in a fresh child of [s], the name and the arguments are
    expanded and the command is made against that child; the start is
    reported, the command runs, and [complete] records what it returned. *)
Inductive sub_execution (task : Task) (s : Scope) (fs : FutureScopePtr)
    (item : Binding) (st st' : State) : Prop :=
| sub_execution_intro name str c st1 out st2 :
    item_ready task s st item name str c →
    report (StartTask task (Builtin c) name str) st = Ret () st1 →
    Builtin_Run c task str st1 = Ret out st2 →
    complete task (Builtin c) fs out st2 = Ret () st' →
    sub_execution task s fs item st st'.

(** One sub-execution per item, in the order of the items, each
    starting where the one before it ended. *)
Inductive sub_executions (task : Task) (s : Scope) (fs : FutureScopePtr)
    : list Binding → State → State → Prop :=
| sub_executions_nil st : sub_executions task s fs [] st st
| sub_executions_cons item rest st st1 st' :
    sub_execution task s fs item st st1 →
    sub_executions task s fs rest st1 st' →
    sub_executions task s fs (item :: rest) st st'.

End Run.

End Runner.

(** ** A small instance to run the model on *)

Module Sample.

Import Runner.

(** [strings.TrimSpace] on ASCII text. *)
Definition is_space (c : ascii) : bool :=
  bool_decide (c ∈ [" "; "009"; "010"; "011"; "012"; "013"]%char).

Fixpoint trim_left (s : string) : string :=
  match s with
  | EmptyString => EmptyString
  | String c s' => if is_space c then trim_left s' else s
  end.

Definition TrimSpace (s : string) : string :=
  String.rev (trim_left (String.rev (trim_left s))).

(** An operating system with three programs: [printf] writes its
    arguments to standard output, [warn] writes them to standard error,
    [exit] ends with status 3; nothing else can be started. *)
Definition spawn (env : option (list string)) (name : string)
    (args : list string) : Builtin.Child :=
  if decide (name = "printf")
  then Builtin.mkChild None None (String.concat "" args) "" (Builtin.Exit 0)
  else if decide (name = "warn")
  then Builtin.mkChild None None "" (String.concat "" args) (Builtin.Exit 0)
  else if decide (name = "exit")
  then Builtin.mkChild None None "" "" (Builtin.Exit 3)
  else Builtin.mkChild None None "" "" Builtin.StartFailed.

Definition nl : string := String newline "".

(** A template [$x] expands to the string bound to [x]; any other text
    expands to itself. *)
Definition expand (get : string → option Binding) (tmpl : string)
    : string + error :=
  match tmpl with
  | String "$"%char key =>
      match get key with
      | Some (BValue (VStr v)) => inl v
      | _ => inr (OtherError ("undefined variable " ++ key))
      end
  | _ => inl tmpl
  end.

(** Argument text is taken to bind nothing; a lone quote does not parse. *)
Definition parse (get : string → option Binding) (args : string)
    : gmap string Binding + error :=
  if decide (args = "'") then inr (OtherError "unterminated quote")
  else inl ∅.

(** Four registered commands, known by name. *)
Definition make (get : string → option Binding) (task : Task) (str : string)
    : string + error :=
  if decide (Task.Command task ∈ ["ok"; "same"; "fail"; "broken"])
  then inl (Task.Command task)
  else inr (OtherError ("unknown command " ++ Task.Command task)).

(** [ok] reports a change, [same] reports none, [fail] returns an error
    and no result, [broken] returns an error next to a result.  The world
    is the list of argument texts run so far. *)
Definition run (c : string) (task : Task) (str : string) (w : list string)
    : (option Result * option error) * list string :=
  (if decide (c = "fail") then (None, Some (OtherError "boom"))
   else if decide (c = "broken")
        then (Some (NewResult true), Some (OtherError "boom"))
        else (Some (NewResult (bool_decide (c = "ok"))), None),
   (w ++ [str])%list).

#[global] Instance collaborators : Collaborators string (list string) := {|
  ExpandVars := expand;
  ParseSimpleMap := parse;
  MakeCommand := make;
  Cmd_Run := run;
  FutureScope_Results := λ _, [];
  wait_Wait := λ st, st;
  FutureScope_Wait := λ st, world st
|}.

(** A task that runs [command] on [args] and notifies [notify]. *)
Definition task (name command args : string) (notify : list string) : Task :=
  Task.mk name command args "" None "" notify false "" None.

Definition play (tasks handlers : list Task) : Play :=
  mkPlay ∅ tasks handlers ∅.

(** The state at the start of a play with variables [vars], and the
    same with names already notified. *)
Definition start (vars : gmap string Binding) : State string (list string) :=
  mkState ∅ [] [] [] (NewFutureScope vars) [].

Definition init : State string (list string) := start ∅.

Definition notified (names : gset string) : State string (list string) :=
  mkState names [] [] [] (NewFutureScope ∅) [].

(** Tasks: one whose command reports no change, one whose command
    fails, one behind a [When], one that registers what a broken command
    returns, one with a future name, one that is asynchronous, and a loop
    over items that carries both flags as well. *)
Definition unchanged : Task := task "check" "same" "x" ["h1"].

Definition failing : Task := task "restart" "fail" "now" ["h1"].


Definition registered : Task :=
  Task.mk "probe" "broken" "x" "" None "out" ["h1"] false "" None.


Definition background : Task :=
  Task.mk "background" "ok" "x" "" None "" [] true "" None.

Definition looped (items : list Binding) : Task :=
  Task.mk "each" "ok" "$item" "" (Some items) "" [] true "later" None.

(** Two handlers, the first of which notifies the second. *)
Definition h1 : Task := task "h1" "ok" "y" ["h2"].

Definition h2 : Task := task "h2" "ok" "z" [].

Definition chained : Play := play [unchanged] [h1; h2].

(** A play with a module [m] of one task, whose command is not a
    registered one, and the run of [m] for a task that calls it. *)
Definition inner : Task := task "inner" "nope" "x" [].

Definition with_module : Play :=
  mkPlay ∅ [] [] {[ "m" := mkModule [inner] ]}.

Definition call (args : string) : Task := task "call" "m" args ["h1"].

Definition m_run (args : string) : ModuleRun :=
  mkModuleRun with_module (call args) (mkModule [inner]) PlayScope.

End Sample.

(** ** builtin.go: the command, shell and script commands *)

Module Commands.

Import Builtin.

Section Run.

Variable spawn : option (list string) → string → list string → Child.
Variable ShowCommandOutput : bool.
Variable TrimSpace : string → string.

(** [shlex.Split]: the words found, with the error that stopped the
    lexer if there was one. *)
Variable Split : string → list string * option error.

(** [env.Paths.File] and the error of [os.Stat]. *)
Variable File : string → string.
Variable Stat : string → option error.

(** [CommandCmd.Run]. *)
Definition CommandCmd_Run (Command : string)
    : option (option Result * option error) :=
  let '(parts, err) := Split Command in
  match err with
  | Some e => Some (None, Some e)
  | None => runCmd spawn ShowCommandOutput TrimSpace parts
  end.

(** [ShellCmd.Run]. *)
Definition ShellCmd_Run (Command : string)
    : option (option Result * option error) :=
  runCmd spawn ShowCommandOutput TrimSpace ["sh"; "-c"; Command].

(** [ParseArgs], the same for the three commands: the whole argument
    text becomes the value of [command]. *)
Definition ParseArgs (args : string) : gmap string Value * option error :=
  ({[ "command" := VStr args ]}, None).

(** [ScriptCmd.Run]; [parts[0]] and [parts[1:]] panic on a slice without
    elements. *)
Definition ScriptCmd_Run (Script : string)
    : option (option Result * option error) :=
  let '(parts, err) := Split Script in
  let script :=
    match err with
    | None =>
        match parts with
        | [] => None
        | first :: _ => Some first
        end
    | Some _ => Some Script
    end in
  match script with
  | None => None
  | Some script =>
      let path := File script in
      match Stat path with
      | Some e => Some (None, Some e)
      | None =>
          match parts with
          | [] => None
          | _ :: rest =>
              runCmd spawn ShowCommandOutput TrimSpace ("sh" :: path :: rest)
          end
      end
  end.

End Run.

End Commands.

(** A splitter, a search path and a file system for the sample: words
    are separated by spaces, a lone quote is an unterminated one; files
    are looked up under [scripts/], where only [scripts/absent] is
    missing. *)
Module SampleCommands.

Definition Split (s : string) : list string * option error :=
  if decide (s = "'")
  then ([], Some (OtherError "EOF found when expecting closing quote"))
  else (String.words s, None).

Definition File (s : string) : string := "scripts/" ++ s.

Definition Stat (path : string) : option error :=
  if decide (path = "scripts/absent")
  then Some (OtherError "stat scripts/absent: no such file or directory")
  else None.

End SampleCommands.

(** ** builtin.go: the copy command *)

Module Copy.

(** What [CopyCmd.Run] asks of the [os.FileInfo] of the destination. *)
Record FileInfo := mkFileInfo {
  IsDir : bool;
  IsSymlink : bool
}.

Record CopyCmd := mkCopyCmd {
  Src : string;
  Dest : string
}.

Section Run.

(** The file system and the calls made on it.  A call that only reads
    is a function of the file system; a call that writes returns the
    file system it leaves, or its error and then no change, except for
    [io.Copy] into the new file, which may fail half-way.  [Stat] gives
    the mode of a file and, where [Sys()] is a [syscall.Stat_t], its
    owner; [ReadAll] is what [io.Copy] reads from an opened file;
    [Sum] is the MD5 digest of a content and [Dump] is [hex.Dump]. *)
Variables FS Mode Owner : Type.
Variable Open : FS → string → option error.
Variable Stat : FS → string → (Mode * option Owner) + error.
Variable Lstat : FS → string → FileInfo + error.
Variable ReadAll : FS → string → string + error.
Variable Sum : string → string.
Variable Dump : string → string.
Variable Join : string → string → string.
Variable Base : string → string.
Variable Getpid : Z.
Variable OpenFile : FS → string → FS + error.
Variable Copy : FS → string → string → FS * option error.
Variable Remove : FS → string → FS.
Variable Chmod : FS → string → Mode → FS + error.
Variable Chown : FS → string → Owner → FS.
Variable Rename : FS → string → string → FS + error.

(** [md5file]. *)
Definition md5file (fs : FS) (path : string) : string + error :=
  match Open fs path with
  | Some e => inr e
  | None =>
      match ReadAll fs path with
      | inr e => inr e
      | inl content => inl (Sum content)
      end
  end.

(** The destination the copy is written to: inside [Dest] when that is a
    directory. *)
Definition dest (cmd : CopyCmd) (fs : FS) : string :=
  match Lstat fs (Dest cmd) with
  | inl stat =>
      if IsDir stat then Join (Dest cmd) (Base (Src cmd)) else Dest cmd
  | inr _ => Dest cmd
  end.

(** [dstDigest]: nil unless the destination exists, is no directory and
    can be read. *)
Definition dstDigest (cmd : CopyCmd) (fs : FS) : option string :=
  match Lstat fs (Dest cmd) with
  | inl stat =>
      if IsDir stat then None
      else match md5file fs (Dest cmd) with
           | inl d => Some d
           | inr _ => None
           end
  | inr _ => None
  end.

Definition link (cmd : CopyCmd) (fs : FS) : bool :=
  match Lstat fs (Dest cmd) with
  | inl stat => IsSymlink stat
  | inr _ => false
  end.

(** The temporary file: named after [cmd.Dest], not after [dest]. *)
Definition tmp (cmd : CopyCmd) : string :=
  Dest cmd ++ ".tmp." ++ itoa Getpid.

Definition rd (cmd : CopyCmd) (fs : FS) (srcDigest : string)
    : gmap string Value :=
  {[ "md5sum" := VStr (Dump srcDigest);
     "src" := VStr (Src cmd);
     "dest" := VStr (dest cmd fs) ]}.

(** [CopyCmd.Run]: what it returns and the file system it leaves. *)
Definition CopyCmd_Run (cmd : CopyCmd) (fs : FS)
    : (option Result * option error) * FS :=
  match Open fs (Src cmd) with
  | Some e => ((None, Some e), fs)
  | None =>
  match Stat fs (Src cmd) with
  | inr e => ((None, Some e), fs)
  | inl (mode, owner) =>
  match md5file fs (Src cmd) with
  | inr e => ((None, Some e), fs)
  | inl srcDigest =>
  if decide (dstDigest cmd fs = Some srcDigest)
  then ((Some (WrapResult false (rd cmd fs srcDigest)), None), fs)
  else
  match OpenFile fs (tmp cmd) with
  | inr e => ((None, Some e), fs)
  | inl fs1 =>
  match Copy fs1 (tmp cmd) (Src cmd) with
  | (fs2, Some e) => ((None, Some e), Remove fs2 (tmp cmd))
  | (fs2, None) =>
  let fs3 := if link cmd fs then Remove fs2 (dest cmd fs) else fs2 in
  match Chmod fs3 (tmp cmd) mode with
  | inr e => ((None, Some e), Remove fs3 (tmp cmd))
  | inl fs4 =>
  let fs5 := match owner with
             | Some o => Chown fs4 (tmp cmd) o
             | None => fs4
             end in
  match Rename fs5 (tmp cmd) (dest cmd fs) with
  | inr e => ((None, Some e), Remove fs5 (tmp cmd))
  | inl fs6 => ((Some (WrapResult true (rd cmd fs srcDigest)), None), fs6)
  end end end end end end end.

End Run.

End Copy.

(** A file system for the sample: regular files by path with their
    contents, and one directory, [dir], that is always there.  The
    digest of a content is taken to be the content, every file has mode
    420 and no owner to pass on, and no call fails for a reason other
    than a missing file. *)
Module SampleCopy.

Import Copy.

Definition FS : Type := gmap string string.

Definition missing (path : string) : error :=
  OtherError ("open " ++ path ++ ": no such file or directory").

Definition Open (fs : FS) (path : string) : option error :=
  match fs !! path with
  | Some _ => None
  | None => Some (missing path)
  end.

Definition Stat (fs : FS) (path : string) : (Z * option unit) + error :=
  match fs !! path with
  | Some _ => inl (420, None)
  | None => inr (missing path)
  end.

Definition Lstat (fs : FS) (path : string) : FileInfo + error :=
  if decide (path = "dir") then inl (mkFileInfo true false)
  else match fs !! path with
       | Some _ => inl (mkFileInfo false false)
       | None => inr (missing path)
       end.

Definition ReadAll (fs : FS) (path : string) : string + error :=
  match fs !! path with
  | Some content => inl content
  | None => inr (missing path)
  end.

Definition Sum (content : string) : string := content.

Definition Dump (digest : string) : string := digest.

Definition Join (dir base : string) : string := dir ++ "/" ++ base.

Definition Base (path : string) : string := path.

Definition Getpid : Z := 7.

Definition OpenFile (fs : FS) (path : string) : FS + error :=
  match fs !! path with
  | Some _ => inl fs
  | None => inl (<[path := EmptyString]> fs)
  end.

Definition Copy (fs : FS) (to from : string) : FS * option error :=
  match fs !! from with
  | Some content => (<[to := content]> fs, None)
  | None => (fs, Some (missing from))
  end.

Definition Remove (fs : FS) (path : string) : FS := delete path fs.

Definition Chmod (fs : FS) (path : string) (mode : Z) : FS + error :=
  inl fs.

Definition Chown (fs : FS) (path : string) (owner : unit) : FS := fs.

Definition Rename (fs : FS) (old new : string) : FS + error :=
  match fs !! old with
  | Some content => inl (<[new := content]> (delete old fs))
  | None => inr (missing old)
  end.

Definition Run : CopyCmd → FS → (option Result * option error) * FS :=
  CopyCmd_Run FS Z unit Open Stat Lstat ReadAll Sum Dump Join Base Getpid
    OpenFile Copy Remove Chmod Chown Rename.

End SampleCopy.

(** More plays for the sample: a module of two working tasks and a task
    that calls it, a module task that names a future, a loop over two
    items that registers its result, and a play whose only task has no
    command to run. *)
Module SampleRuns.

Import Runner Sample.

Definition step : Task := task "step" "ok" "s" ["h1"].

Definition with_steps : Play :=
  mkPlay ∅ [] [] {[ "m" := mkModule [step; step] ]}.

Definition use : Task := task "use" "m" "x" [].

Definition later_step : Task :=
  Task.mk "later" "ok" "s" "" None "" [] false "f" None.

Definition m_later : ModuleRun :=
  mkModuleRun with_steps use (mkModule [later_step]) PlayScope.

Definition each_registered : Task :=
  Task.mk "each" "ok" "$item" "" (Some [BValue (VStr "a"); BValue (VStr "b")])
    "out" ["h1"] false "" None.

Definition stuck : Play := play [inner] [h1].

(** A module whose task registers what its broken command returns, and
    the task that calls it. *)
Definition use_probe : Task := task "use" "probe" "x" [].

Definition with_probe : Play :=
  mkPlay ∅ [use_probe] [] {[ "probe" := mkModule [registered] ]}.




(** A loop over three items, the second of which is no string and does
    not expand. *)
Definition mixed : Task :=
  Task.mk "each" "ok" "$item" ""
    (Some [BValue (VStr "a"); BValue (VInt 1); BValue (VStr "c")])
    "" [] false "" None.

Definition again : Task := task "again" "m" "x" [].

Definition recursive : Play :=
  mkPlay ∅ [again] [] {[ "m" := mkModule [again] ]}.

End SampleRuns.

(** ** runner.go: writing through a scope, notions for the history, and
    the item loop written out *)

Module RunnerExtra.

Import Runner.

Section Defs.

Context {Cmd World : Type}.

(** Modelled from the spec: [Set] of the scopes declared outside the
    files at hand always writes the local frame: that of the future scope
    of the play for [PlayScope], its own for a nested scope. *)
Definition Scope_Set (s : Scope) (fs : FutureScope Cmd) (key : string)
    (val : Binding) : Scope * FutureScope Cmd :=
  match s with
  | PlayScope =>
      (PlayScope,
       mkFutureScope (<[key := val]> (fs_frame fs)) (fs_seed fs)
         (fs_futures fs))
  | NestedScope frame parent => (NestedScope (<[key := val]> frame) parent, fs)
  end.

(** [PriorityScope.Set]: the write goes to [rest]. *)
Definition PriorityScope_Set (task : option (gmap string Binding))
    (rest : Scope) (fs : FutureScope Cmd) (key : string) (val : Binding)
    : Scope * FutureScope Cmd :=
  Scope_Set rest fs key val.

(** The results the reporter has been told of with [FinishTask], in the
    order of the calls. *)
Definition finished (events : list (Event Cmd)) : list RunResult :=
  omap (λ e, match e with
             | FinishTask task _ res => Some (mkRunResult task res)
             | _ => None
             end) events.

(** The events of single tasks, as opposed to those of the phases. *)
Definition task_event (e : Event Cmd) : bool :=
  match e with
  | StartTask _ _ _ _ | FinishTask _ _ _ => true
  | _ => false
  end.

(** [st'] has everything [st] had: the history, the reporter's log and
    the launched actions of [st] are prefixes of those of [st'], and the
    notify set of [st] is a subset. *)
Definition extends (st st' : State Cmd World) : Prop :=
  Results st `prefix_of` Results st'
  ∧ reported st `prefix_of` reported st'
  ∧ spawned st `prefix_of` spawned st'
  ∧ to_notify st ⊆ to_notify st'.

(** From [st] to [st'] the reporter has heard of single tasks only, and
    the history has grown by the results it was told of with
    [FinishTask], in the order of the calls. *)
Definition in_step (st st' : State Cmd World) : Prop :=
  ∃ evs,
    reported st' = (reported st ++ evs)%list
    ∧ Results st' = (Results st ++ finished evs)%list
    ∧ Forall (λ e, task_event e = true) evs.

(** From [st] to [st'] every name that has come into the notify set
    is in the [Notify] list of a task whose result has come into the
    history. *)
Definition notified_by_results (st st' : State Cmd World) : Prop :=
  ∃ rs,
    Results st' = (Results st ++ rs)%list
    ∧ ∀ n, n ∈ to_notify st' →
        n ∈ to_notify st ∨ ∃ r, r ∈ rs ∧ n ∈ Task.Notify (r_Task r).

(** A relation between states that each single effect of [runTask]
    respects: a report of a start, a command's change of the world, the
    launch of an asynchronous action, the registration of a future, and
    what follows the return of a command. *)
Class Kept (R : relation (State Cmd World)) : Prop := {
  Kept_preorder :: PreOrder R;
  Kept_start task cmd name str st st' :
    report (StartTask task cmd name str) st = Ret () st' → R st st';
  Kept_world (w : World) st st' : setWorld w st = Ret () st' → R st st';
  Kept_launch a st st' : launch a st = Ret () st' → R st st';
  Kept_future key f st st' :
    AddFuture ThePlay key f st = Ret () st' → R st st';
  Kept_completed task cmd out st : R st (completed task cmd out st)
}.

End Defs.

Section Items.

Context `{Collaborators Cmd World}.

(** One sub-execution of an item loop, written out as the state it
    leaves: the start is reported; the command [c] is run on the expanded
    arguments [str] in the world as it is, and leaves the world it
    returns; where the task has a [Register] name, what the command
    returned is bound to it; the result (the failed one on an error) is
    appended to the history and reported; the [Notify] names are added
    unless the command returned an error. *)
Definition sub_executed (task : Task) (c : Cmd) (name str : string)
    (st : State Cmd World) : State Cmd World :=
  let ran := Cmd_Run c task str (world st) in
  let res := ran.1.1 in
  let err := ran.1.2 in
  let recorded_res :=
    match err with
    | Some e => Some (failedResult e)
    | None => res
    end in
  mkState
    (match err with
     | None => list_to_set (Task.Notify task) ∪ to_notify st
     | Some _ => to_notify st
     end)
    (Results st ++ [mkRunResult task recorded_res])%list
    (spawned st)
    (reported st ++ [StartTask task (Builtin c) name str;
                     FinishTask task (Builtin c) recorded_res])%list
    (if decide (Task.Register task = "") then scope st
     else mkFutureScope
            (<[Task.Register task := BResult res]> (fs_frame (scope st)))
            (fs_seed (scope st)) (fs_futures (scope st)))
    ran.2.

(** The item loop in the words of the spec, to be compared with
    [runTaskItems]: for each item in order, bind [item] in a child scope,
    expand the name and the arguments of the task against that child
    scope, make the command and perform the sub-execution, one after the
    other; the first item for which an expansion or the command lookup
    fails ends the loop with that error, in the state the items before it
    have left. *)
Fixpoint loop_over_items (task : Task) (s : Scope) (items : list Binding)
    (st : State Cmd World) : option error * State Cmd World :=
  match items with
  | [] => (None, st)
  | item :: rest =>
      let get :=
        Scope_Get (NestedScope_Set "item" item (NewNestedScope s)) (scope st) in
      match ExpandVars get (Task.Name task) with
      | inr err => (Some err, st)
      | inl name =>
          match ExpandVars get (Task.Args task) with
          | inr err => (Some err, st)
          | inl str =>
              match MakeCommand get task str with
              | inr err => (Some err, st)
              | inl c =>
                  loop_over_items task s rest (sub_executed task c name str st)
              end
          end
      end
  end.

End Items.

End RunnerExtra.

(** * Properties *)

(** ** builtin.go *)

Module BuiltinFacts.

Import Builtin.

Section Exec.

Variable spawn : option (list string) → string → list string → Child.
Variable show : bool.
Variable TrimSpace : string → string.

Lemma captureCmd_exit c status :
  stdout_pipe c = None → stderr_pipe c = None → child_end c = Exit status →
  captureCmd c show =
    (read_lines "" (child_stdout c), read_lines "" (child_stderr c),
     if decide (status = 0) then None else Some (ExitError status)).
Proof.
  intros Hout Herr Hend. unfold captureCmd.
  by rewrite Hout, Herr, Hend.
Qed.

Lemma captureCmd_not_started c :
  stdout_pipe c = None → stderr_pipe c = None → child_end c = StartFailed →
  captureCmd c show =
    (read_lines "" (child_stdout c), read_lines "" (child_stderr c),
     Some (OtherError "exec: not started")).
Proof.
  intros Hout Herr Hend. unfold captureCmd.
  by rewrite Hout, Herr, Hend.
Qed.

Lemma captureCmd_no_pipe c msg :
  stdout_pipe c = Some msg ∨ (stdout_pipe c = None ∧ stderr_pipe c = Some msg) →
  captureCmd c show = ("", "", Some (OtherError msg)).
Proof.
  unfold captureCmd. intros [-> | [-> ->]]; reflexivity.
Qed.

(** C8.  A child that exits with a non-zero status gives a
    [CommandResult] whose [ReturnCode] is 1, whatever the status was; a
    child that exits with status 0 gives [ReturnCode] 0; a failure that
    is no exit status (a pipe that cannot be set up, a process that was
    not started) is returned as an error and no [CommandResult].  The
    same holds for [RunCommand] and for [RunCommandInEnv]. *)
Theorem exit_status_collapses (unixEnv : list string) (name : string)
    (args : list string) :
  ∀ run c,
    (run = RunCommand spawn show (name :: args) ∧ c = spawn None name args)
    ∨ (run = RunCommandInEnv spawn show unixEnv (name :: args)
       ∧ c = spawn (Some unixEnv) name args) →
    (∀ status,
        stdout_pipe c = None → stderr_pipe c = None →
        child_end c = Exit status →
        ∃ cmd, run = Some (Some cmd, None)
               ∧ ReturnCode cmd = (if decide (status = 0) then 0 else 1)
               ∧ Stdout cmd = read_lines "" (child_stdout c)
               ∧ Stderr cmd = read_lines "" (child_stderr c))
    ∧ (stdout_pipe c = None → stderr_pipe c = None →
       child_end c = StartFailed →
       run = Some (None, Some (OtherError "exec: not started")))
    ∧ (∀ msg,
        stdout_pipe c = Some msg
        ∨ (stdout_pipe c = None ∧ stderr_pipe c = Some msg) →
        run = Some (None, Some (OtherError msg))).
Proof.
  intros run c Hrun.
  assert (Hshape : run =
      let '(stdout, stderr, err) := captureCmd c show in
      match err with
      | Some (ExitError _) => Some (Some (mkCommandResult 1 stdout stderr), None)
      | Some e => Some (None, Some e)
      | None => Some (Some (mkCommandResult 0 stdout stderr), None)
      end).
  { destruct Hrun as [[-> ->] | [-> ->]]; reflexivity. }
  clear Hrun. split; [| split].
  - intros status Hout Herr Hend.
    rewrite (captureCmd_exit _ _ Hout Herr Hend) in Hshape.
    destruct (decide (status = 0)); subst run; eauto 10.
  - intros Hout Herr Hend.
    by rewrite (captureCmd_not_started _ Hout Herr Hend) in Hshape.
  - intros msg Hpipe.
    by rewrite (captureCmd_no_pipe _ _ Hpipe) in Hshape.
Qed.

Lemma renderShellResult_fields cmd :
  renderShellResult (shellFields TrimSpace cmd) =
    let rc := ReturnCode cmd in
    let stdout := TrimSpace (Stdout cmd) in
    let stderr := TrimSpace (Stderr cmd) in
    if decide (rc = 0 ∧ String.length stdout = 0%nat
               ∧ String.length stderr = 0%nat)
    then Some ("", true)
    else if decide (String.length stderr = 0%nat
                    ∧ (String.length stdout < 60)%nat)
    then Some ("rc: " ++ itoa rc ++ ", stdout: " ++ String quote
                 (Replace_newlines stdout ++ String quote ""), true)
    else Some ("", false).
Proof. reflexivity. Qed.

Lemma shellFields_no_summary cmd :
  Result_Get (shellFields TrimSpace cmd) "_result" = None.
Proof. reflexivity. Qed.

Lemma Replace_newlines_single_line s :
  newline ∉ list_ascii_of_string s → Replace_newlines s = s.
Proof.
  induction s as [| c s IH]; simpl; [done |].
  intros Hnl. rewrite not_elem_of_cons in Hnl. destruct Hnl as [Hc Hs].
  rewrite IH by done. by destruct (decide (c = newline)).
Qed.

Lemma length_zero_empty s : String.length s = 0%nat ↔ s = "".
Proof. destruct s; simpl; split; intros; congruence. Qed.

Lemma Result_Get_Add key v r : Result_Get (Result_Add key v r) key = Some v.
Proof. apply lookup_insert_eq. Qed.

(** C7, as amended.  After a successful [RunCommand], [runCmd] returns a
    result [r] in which: exit code 0 with empty trimmed output on both
    streams gives the empty summary; empty trimmed standard error and a
    trimmed standard output of fewer than 60 bytes give the summary
    [rc: <rc>, stdout: <quoted text>] in which every newline of the text
    is replaced by a space, which for exit code 0 and a single line is
    exactly [rc: 0, stdout: <quoted text>]; a trimmed standard output of
    60 bytes or more, or a non-empty trimmed standard error, gives no
    [_result] key. *)
Theorem shell_summary (parts : list string) (cmd : CommandResult) :
  RunCommand spawn show parts = Some (Some cmd, None) →
  let rc := ReturnCode cmd in
  let stdout := TrimSpace (Stdout cmd) in
  let stderr := TrimSpace (Stderr cmd) in
  ∃ r, runCmd spawn show TrimSpace parts = Some (Some r, None)
    ∧ Result_Get r "rc" = Some (VInt rc)
    ∧ Result_Get r "stdout" = Some (VStr stdout)
    ∧ Result_Get r "stderr" = Some (VStr stderr)
    ∧ (rc = 0 → stdout = "" → stderr = "" →
       Result_Get r "_result" = Some (VStr ""))
    ∧ (stderr = "" → (String.length stdout < 60)%nat →
       rc ≠ 0 ∨ stdout ≠ "" →
       Result_Get r "_result" =
         Some (VStr ("rc: " ++ itoa rc ++ ", stdout: " ++ String quote
                       (Replace_newlines stdout ++ String quote ""))))
    ∧ (rc = 0 → stderr = "" → (String.length stdout < 60)%nat →
       stdout ≠ "" → newline ∉ list_ascii_of_string stdout →
       Result_Get r "_result" =
         Some (VStr ("rc: 0, stdout: " ++ String quote
                       (stdout ++ String quote ""))))
    ∧ ((60 ≤ String.length stdout)%nat ∨ stderr ≠ "" →
       Result_Get r "_result" = None).
Proof.
  intros Hrun rc stdout stderr.
  unfold runCmd, shellResult. rewrite Hrun, renderShellResult_fields.
  fold rc stdout stderr. cbv zeta.
  destruct (decide (rc = 0 ∧ String.length stdout = 0%nat
                    ∧ String.length stderr = 0%nat)) as [(Hrc & Hout & Herr) | Hne].
  - apply length_zero_empty in Hout, Herr.
    eexists; split; [reflexivity |].
    repeat split; try reflexivity.
    + intros _ Hlt [? | ?]; congruence.
    + intros _ _ _ ? _; congruence.
    + intros [Hlong | ?]; [| congruence]. rewrite Hout in Hlong. simpl in Hlong. lia.
  - destruct (decide (String.length stderr = 0%nat
                      ∧ (String.length stdout < 60)%nat)) as [[Herr Hlt] | Hno].
    + eexists; split; [reflexivity |].
      repeat split; try reflexivity.
      * intros Hrc Hout' Herr'. exfalso. apply Hne.
        by rewrite Hrc, Hout', Herr'.
      * intros Hrc _ _ _ Hnl. rewrite Result_Get_Add. fold rc.
        rewrite Hrc, (Replace_newlines_single_line _ Hnl). reflexivity.
      * intros [Hlong | Herr']; [lia |].
        apply length_zero_empty in Herr. congruence.
    + eexists; split; [reflexivity |].
      repeat split; try reflexivity.
      * intros Hrc Hout' Herr'. exfalso. apply Hne.
        by rewrite Hrc, Hout', Herr'.
      * intros Herr' Hlt _. exfalso. apply Hno. by rewrite Herr'.
      * intros _ Herr' Hlt _ _. exfalso. apply Hno. by rewrite Herr'.
Qed.

End Exec.

(** [exit] ends with status 3 and is reported with return code 1; a
    program that cannot be started gives an error. *)
Lemma exit_status_collapses_witness :
  (∃ cmd, RunCommand Sample.spawn false ["exit"] = Some (Some cmd, None)
          ∧ ReturnCode cmd = 1)
  ∧ RunCommandInEnv Sample.spawn false [] ["missing"]
    = Some (None, Some (OtherError "exec: not started")).
Proof.
  split.
  - destruct (exit_status_collapses Sample.spawn false [] "exit" [] _ _
                (or_introl (conj eq_refl eq_refl))) as (Hexit & _ & _).
    destruct (Hexit 3 eq_refl eq_refl eq_refl) as (cmd & Hrun & Hrc & _).
    exists cmd. split; [exact Hrun | exact Hrc].
  - destruct (exit_status_collapses Sample.spawn false [] "missing" [] _ _
                (or_intror (conj eq_refl eq_refl))) as (_ & Hfail & _).
    exact (Hfail eq_refl eq_refl eq_refl).
Defined.

(** [printf] of one line gives the summary with that line. *)
Lemma shell_summary_witness :
  ∃ r, runCmd Sample.spawn false Sample.TrimSpace ["printf"; "hello" ++ Sample.nl]
       = Some (Some r, None)
     ∧ Result_Get r "_result" =
         Some (VStr ("rc: 0, stdout: " ++ String quote ("hello" ++ String quote ""))).
Proof.
  destruct (shell_summary Sample.spawn false Sample.TrimSpace
              ["printf"; "hello" ++ Sample.nl]
              (mkCommandResult 0 ("hello" ++ Sample.nl) "") eq_refl)
    as (r & Hrun & _ & _ & _ & _ & _ & Hline & _).
  exists r. split; [exact Hrun |].
  apply Hline.
  - reflexivity.
  - reflexivity.
  - vm_compute. lia.
  - vm_compute. discriminate.
  - apply (bool_decide_unpack _). vm_compute. exact I.
Defined.

(** C7, the claim as it stands.  [printf] of the two lines [a] and [b]
    exits with status 0 and leaves a trimmed standard output of two
    lines; the result nevertheless carries a summary, the two lines
    joined by a space. *)
Lemma multi_line_summary :
  ∃ r, runCmd Sample.spawn false Sample.TrimSpace
         ["printf"; "a" ++ Sample.nl ++ "b" ++ Sample.nl]
       = Some (Some r, None)
     ∧ Result_Get r "rc" = Some (VInt 0)
     ∧ Result_Get r "stdout" = Some (VStr ("a" ++ Sample.nl ++ "b"))
     ∧ Result_Get r "stderr" = Some (VStr "")
     ∧ Result_Get r "_result" =
         Some (VStr ("rc: 0, stdout: " ++ String quote ("a b" ++ String quote ""))).
Proof.
  eexists. split; [vm_compute; reflexivity |].
  repeat split; vm_compute; reflexivity.
Qed.

End BuiltinFacts.

(** ** runner.go *)

Module RunnerFacts.

Import Runner RunnerExtra.

Local Open Scope list_scope.

Ltac unfold_monad :=
  unfold orReturn, reading, report, appendResults, setScope, setWorld,
    launch, AddNotify, ShouldRunHandler, Builtin_Run, mbind, M_bind, mret,
    M_ret in *.

Section Facts.

Context `{Collaborators Cmd World}.

Implicit Types (st : State Cmd World) (task : Task) (play : Play).
Implicit Types (s : Scope) (fs : FutureScopePtr) (err : error).

(** *** Sequencing *)

Lemma bind_Ret {A B} (m : M Cmd World A) (f : A → M Cmd World B) st b st' :
  (m ≫= f) st = Ret b st' ↔ ∃ a st1, m st = Ret a st1 ∧ f a st1 = Ret b st'.
Proof.
  unfold mbind, M_bind. split.
  - destruct (m st) as [a st1 | |]; [eauto | done | done].
  - intros (a & st1 & -> & Hf). exact Hf.
Qed.

Lemma orReturn_Ret {A} (m : M Cmd World (A + error)) k st e st' :
  orReturn m k st = Ret e st' ↔
    ∃ r st1, m st = Ret r st1
      ∧ match r with
        | inl a => k a st1 = Ret e st'
        | inr err => e = Some err ∧ st' = st1
        end.
Proof.
  unfold orReturn. rewrite bind_Ret. split.
  - intros (r & st1 & Hm & Hk). exists r, st1. split; [done |].
    destruct r; [done |]. by inversion Hk.
  - intros (r & st1 & Hm & Hk). exists r, st1. split; [done |].
    destruct r; [done |]. by destruct Hk as [-> ->].
Qed.

Lemma reading_Ret {A} (f : (string → option Binding) → A) get st a st' :
  reading f get st = Ret a st' ↔ a = f (get (scope st)) ∧ st' = st.
Proof. unfold reading. split; [by inversion 1 | by intros [-> ->]]. Qed.

(** *** The loops of [Run] *)




Lemma Run_abort fuel plays st0 st1 err st' :
  report StartTasks st0 = Ret () st1 →
  taskPhase fuel plays st1 = Ret (Some err) st' →
  Run fuel plays st0 = Ret (Some err) st'.
Proof.
  intros Hrep Hphase. unfold Run.
  apply bind_Ret. exists (), st1. split; [exact Hrep |].
  apply bind_Ret. by exists (Some err), st'.
Qed.

(** *** What follows a command's [Run] *)

Lemma forEach_AddNotify (names : list string) st :
  forEach AddNotify names st =
    Ret () (mkState (list_to_set names ∪ to_notify st) (Results st)
              (spawned st) (reported st) (scope st) (world st)).
Proof.
  revert st. induction names as [| n names IH]; intros st; simpl.
  - unfold mret, M_ret. destruct st; simpl. by rewrite (left_id_L ∅ (∪)).
  - unfold mbind, M_bind, AddNotify. rewrite IH. simpl.
    by rewrite (assoc_L (∪)), (comm_L (∪) (list_to_set names)).
Qed.

Lemma complete_ThePlay task (cmd : Command Cmd) out st :
  complete task cmd ThePlay out st = Ret () (completed task cmd out st).
Proof.
  destruct out as [res oerr]. unfold complete, completed, recorded. simpl.
  destruct (decide (Task.Register task = "")); unfold_monad; simpl.
  - destruct oerr; simpl; [by destruct st |].
    rewrite forEach_AddNotify. reflexivity.
  - destruct oerr; simpl; [reflexivity |].
    rewrite forEach_AddNotify. reflexivity.
Qed.

Lemma complete_unregistered task (cmd : Command Cmd) fs out st :
  Task.Register task = "" →
  complete task cmd fs out st = complete task cmd ThePlay out st.
Proof.
  intros Hreg. destruct out as [res oerr]. unfold complete.
  by destruct (decide (Task.Register task = "")).
Qed.

Lemma complete_Nil task (cmd : Command Cmd) out st :
  Task.Register task ≠ "" → complete task cmd Nil out st = Panic.
Proof.
  intros Hreg. destruct out as [res oerr]. unfold complete.
  by destruct (decide (Task.Register task = "")).
Qed.

Lemma complete_bound task (cmd : Command Cmd) fs out st :
  Task.Register task = "" ∨ fs = ThePlay →
  complete task cmd fs out st = Ret () (completed task cmd out st).
Proof.
  intros [Hreg | ->]; [rewrite complete_unregistered by done |];
    apply complete_ThePlay.
Qed.

(** *** Reaching the dispatch in [runTask] *)

Lemma whenGate_state task s st go st' :
  whenGate task s st = Ret go st' → st' = st.
Proof.
  unfold whenGate. destruct (decide (Task.When task = "")); unfold_monad;
    by inversion 1.
Qed.

Lemma resolveCommand_state play task s str st cmd st' :
  resolveCommand play task s str st = Ret cmd st' → st' = st.
Proof.
  unfold resolveCommand. destruct (Modules play !! Task.Command task);
    unfold_monad; by inversion 1.
Qed.


Lemma runTask_items fuel play task s fs st items :
  whenGate task s st = Ret (inl true) st →
  Task.Items task = Some items →
  runTask (S fuel) play task s fs st = runTaskItems play task s fs items st.
Proof.
  intros Hgate Hitems. simpl. unfold runTask_body, orReturn.
  unfold mbind at 1. unfold M_bind at 1. by rewrite Hgate, Hitems.
Qed.

Lemma runTask_dispatch fuel play task s fs st name str cmd :
  ready play task s st name str cmd →
  runTask (S fuel) play task s fs st =
    (report (StartTask task cmd name str);;
     if decide (Task.Future task = "") then
       if Task.Async task then
         launch (mkAsyncAction task cmd str);; mret None
       else
         out ← Command_Run (runTask fuel) cmd task str;
         complete task cmd fs out;; mret None
     else
       AddFuture fs (Task.Future task) (mkFuture task cmd str);; mret None) st.
Proof.
  intros (Hgate & Hitems & Hname & Hstr & Hcmd).
  simpl. unfold runTask_body, orReturn.
  unfold mbind at 1. unfold M_bind at 1. rewrite Hgate, Hitems.
  unfold mbind at 1. unfold M_bind at 1. unfold reading at 1. rewrite Hname.
  unfold mbind at 1. unfold M_bind at 1. unfold reading at 1. rewrite Hstr.
  unfold mbind at 1. unfold M_bind at 1. rewrite Hcmd.
  reflexivity.
Qed.

(** The synchronous branch, for whatever the command returns. *)
Lemma runTask_sync fuel play task s fs st name str cmd st1 out st2 :
  ready play task s st name str cmd →
  Task.Future task = "" → Task.Async task = false →
  Task.Register task = "" ∨ fs = ThePlay →
  report (StartTask task cmd name str) st = Ret () st1 →
  Command_Run (runTask fuel) cmd task str st1 = Ret out st2 →
  runTask (S fuel) play task s fs st = Ret None (completed task cmd out st2).
Proof.
  intros Hready Hfut Hasync Hreg Hrep Hrun.
  rewrite (runTask_dispatch _ _ _ _ _ _ _ _ _ Hready).
  unfold mbind at 1. unfold M_bind at 1. rewrite Hrep.
  destruct (decide (Task.Future task = "")); [| done]. rewrite Hasync.
  unfold mbind at 1. unfold M_bind at 1. rewrite Hrun.
  unfold mbind at 1. unfold M_bind at 1.
  by rewrite (complete_bound _ _ _ _ _ Hreg).
Qed.

(** One pass through the body of the item loop. *)
Lemma runTaskItems_pass play task s fs item rest st name str c st1 out st2 st3 :
  item_ready task s st item name str c →
  report (StartTask task (Builtin c) name str) st = Ret () st1 →
  Builtin_Run c task str st1 = Ret out st2 →
  complete task (Builtin c) fs out st2 = Ret () st3 →
  runTaskItems play task s fs (item :: rest) st =
    runTaskItems play task s fs rest st3.
Proof.
  intros Hready Hrep Hrun Hdone.
  unfold item_ready in Hready. simpl in Hready.
  destruct Hready as (Hname & Hstr & Hcmd). simpl.
  unfold orReturn.
  unfold mbind at 1. unfold M_bind at 1. unfold reading at 1.
  rewrite Hname.
  unfold mbind at 1. unfold M_bind at 1. unfold reading at 1. rewrite Hstr.
  unfold mbind at 1. unfold M_bind at 1. unfold reading at 1. rewrite Hcmd.
  unfold mbind at 1. unfold M_bind at 1. rewrite Hrep.
  unfold mbind at 1. unfold M_bind at 1. rewrite Hrun.
  unfold mbind at 1. unfold M_bind at 1. by rewrite Hdone.
Qed.

Lemma runTaskItems_step play task s fs item rest st name str c st1 out st2 :
  item_ready task s st item name str c →
  Task.Register task = "" ∨ fs = ThePlay →
  report (StartTask task (Builtin c) name str) st = Ret () st1 →
  Builtin_Run c task str st1 = Ret out st2 →
  runTaskItems play task s fs (item :: rest) st =
    runTaskItems play task s fs rest (completed task (Builtin c) out st2).
Proof.
  intros Hready Hreg Hrep Hrun.
  eapply runTaskItems_pass; [done | done | done |].
  by apply complete_bound.
Qed.

Lemma runTasks_continue fuel play task rest st st' :
  runTask fuel play task PlayScope ThePlay st = Ret None st' →
  runTasks fuel play (task :: rest) st = runTasks fuel play rest st'.
Proof. intros Hrun. simpl. unfold mbind, M_bind. by rewrite Hrun. Qed.

(** *** Command errors *)

Lemma failedResult_data err :
  Changed (failedResult err) = false
  ∧ Result_Get (failedResult err) "failed" = Some (VBool true)
  ∧ Result_Get (failedResult err) "error" = Some (VStr (Error err)).
Proof. repeat split. Qed.

(** Where the task has no [Register] name or writes to the future
    scope of the play, as every task that [Run] dispatches does: when
    the command of a synchronous dispatch, or of one item of an item
    loop, returns an error, the runner puts a failed result in the place
    of what the command returned ([failed] is true, [error] is the
    message of the error), appends it to the history and reports it; the
    notify set is left alone and [runTask] returns nil, so that the loop
    of [Run] goes on with the next task, and the item loop with the next
    item. *)
Theorem command_error_is_recorded (fuel : nat) play task s fs st :
  Task.Register task = "" ∨ fs = ThePlay →
  (∀ name str cmd st1 res err st2,
      ready play task s st name str cmd →
      Task.Future task = "" → Task.Async task = false →
      report (StartTask task cmd name str) st = Ret () st1 →
      Command_Run (runTask fuel) cmd task str st1 = Ret (res, Some err) st2 →
      ∃ st3,
        runTask (S fuel) play task s fs st = Ret None st3
        ∧ (s = PlayScope → fs = ThePlay → ∀ rest,
             runTasks (S fuel) play (task :: rest) st =
               runTasks (S fuel) play rest st3)
        ∧ Results st3 =
            Results st2 ++ [mkRunResult task (Some (failedResult err))]
        ∧ reported st3 =
            reported st2 ++ [FinishTask task cmd (Some (failedResult err))]
        ∧ to_notify st3 = to_notify st2)
  ∧ (∀ item rest name str c st1 res err st2,
      item_ready task s st item name str c →
      report (StartTask task (Builtin c) name str) st = Ret () st1 →
      Builtin_Run c task str st1 = Ret (res, Some err) st2 →
      ∃ st3,
        runTaskItems play task s fs (item :: rest) st =
          runTaskItems play task s fs rest st3
        ∧ Results st3 =
            Results st2 ++ [mkRunResult task (Some (failedResult err))]
        ∧ reported st3 =
            reported st2
              ++ [FinishTask task (Builtin c) (Some (failedResult err))]
        ∧ to_notify st3 = to_notify st2)
  ∧ (∀ err,
      Changed (failedResult err) = false
      ∧ Result_Get (failedResult err) "failed" = Some (VBool true)
      ∧ Result_Get (failedResult err) "error" = Some (VStr (Error err))).
Proof.
  intros Hreg. split; [| split].
  - intros name str cmd st1 res err st2 Hready Hfut Hasync Hrep Hrun.
    pose proof (runTask_sync fuel _ _ _ _ _ _ _ _ _ _ _
                  Hready Hfut Hasync Hreg Hrep Hrun) as Htask.
    eexists. split; [exact Htask |]. split; [| by repeat split].
    intros -> -> rest. by apply runTasks_continue.
  - intros item rest name str c st1 res err st2 Hready Hrep Hrun.
    eexists. split; [by eapply runTaskItems_step |]. by repeat split.
  - apply failedResult_data.
Qed.

(** *** Notification and registration *)

Lemma ShouldRunHandler_notified (n : string) st :
  n ∈ to_notify st → ShouldRunHandler n st = Ret true st.
Proof. intros Hn. unfold ShouldRunHandler. by rewrite bool_decide_eq_true_2. Qed.

Lemma completed_success_notifies task (cmd : Command Cmd) res st :
  let st' := completed task cmd (res, None) st in
  Results st' = Results st ++ [mkRunResult task res]
  ∧ to_notify st' = list_to_set (Task.Notify task) ∪ to_notify st
  ∧ ∀ n, n ∈ Task.Notify task → ShouldRunHandler n st' = Ret true st'.
Proof.
  repeat split. intros n Hn. apply ShouldRunHandler_notified. simpl.
  apply elem_of_union_l. by apply elem_of_list_to_set.
Qed.

(** C2, as amended.  A task whose command is run in line, which is
    the synchronous dispatch of a task with neither a future name nor
    the asynchronous flag and each sub-execution of an item loop, and
    returns without error adds every one of its [Notify] names to the
    notify set, whatever result the command returned and whether or not
    that result reports a change; the handlers of those names are then
    due.  When the command returns an error no name is added.  A task
    that is launched asynchronously or registered as a future adds no
    name and records no result when it is dispatched.  All this for a
    task that has no [Register] name or writes to the future scope of the
    play, and for a future registered in that scope. *)
Theorem success_notifies (fuel : nat) play task s fs st :
  Task.Register task = "" ∨ fs = ThePlay →
  (∀ name str cmd st1 res st2,
      ready play task s st name str cmd →
      Task.Future task = "" → Task.Async task = false →
      report (StartTask task cmd name str) st = Ret () st1 →
      Command_Run (runTask fuel) cmd task str st1 = Ret (res, None) st2 →
      ∃ st3,
        runTask (S fuel) play task s fs st = Ret None st3
        ∧ Results st3 = Results st2 ++ [mkRunResult task res]
        ∧ to_notify st3 = list_to_set (Task.Notify task) ∪ to_notify st2
        ∧ ∀ n, n ∈ Task.Notify task → ShouldRunHandler n st3 = Ret true st3)
  ∧ (∀ item rest name str c st1 res st2,
      item_ready task s st item name str c →
      report (StartTask task (Builtin c) name str) st = Ret () st1 →
      Builtin_Run c task str st1 = Ret (res, None) st2 →
      ∃ st3,
        runTaskItems play task s fs (item :: rest) st =
          runTaskItems play task s fs rest st3
        ∧ Results st3 = Results st2 ++ [mkRunResult task res]
        ∧ to_notify st3 = list_to_set (Task.Notify task) ∪ to_notify st2
        ∧ ∀ n, n ∈ Task.Notify task → ShouldRunHandler n st3 = Ret true st3)
  ∧ (∀ name str cmd st1 res err st2,
      ready play task s st name str cmd →
      Task.Future task = "" → Task.Async task = false →
      report (StartTask task cmd name str) st = Ret () st1 →
      Command_Run (runTask fuel) cmd task str st1 = Ret (res, Some err) st2 →
      ∃ st3,
        runTask (S fuel) play task s fs st = Ret None st3
        ∧ to_notify st3 = to_notify st2)
  ∧ (∀ item rest name str c st1 res err st2,
      item_ready task s st item name str c →
      report (StartTask task (Builtin c) name str) st = Ret () st1 →
      Builtin_Run c task str st1 = Ret (res, Some err) st2 →
      ∃ st3,
        runTaskItems play task s fs (item :: rest) st =
          runTaskItems play task s fs rest st3
        ∧ to_notify st3 = to_notify st2)
  ∧ (∀ name str cmd,
      ready play task s st name str cmd →
      Task.Future task = "" → Task.Async task = true →
      ∃ st',
        runTask (S fuel) play task s fs st = Ret None st'
        ∧ to_notify st' = to_notify st
        ∧ Results st' = Results st)
  ∧ (∀ name str cmd,
      ready play task s st name str cmd →
      Task.Future task ≠ "" → fs = ThePlay →
      ∃ st',
        runTask (S fuel) play task s fs st = Ret None st'
        ∧ to_notify st' = to_notify st
        ∧ Results st' = Results st).
Proof.
  intros Hreg. split; [| split; [| split; [| split; [| split]]]].
  - intros name str cmd st1 res st2 Hready Hfut Hasync Hrep Hrun.
    eexists. split; [by eapply runTask_sync |].
    apply completed_success_notifies.
  - intros item rest name str c st1 res st2 Hready Hrep Hrun.
    eexists. split; [by eapply runTaskItems_step |].
    apply completed_success_notifies.
  - intros name str cmd st1 res err st2 Hready Hfut Hasync Hrep Hrun.
    eexists. split; [by eapply runTask_sync | done].
  - intros item rest name str c st1 res err st2 Hready Hrep Hrun.
    eexists. split; [by eapply runTaskItems_step | done].
  - intros name str cmd Hready Hfut Hasync.
    rewrite (runTask_dispatch _ _ _ _ _ _ _ _ _ Hready).
    rewrite decide_True, Hasync by done. by eexists.
  - intros name str cmd Hready Hfut ->.
    rewrite (runTask_dispatch _ _ _ _ _ _ _ _ _ Hready).
    rewrite decide_False by done. by eexists.
Qed.



(** *** The item loop *)

Lemma complete_Ret task (cmd : Command Cmd) fs out st st' :
  complete task cmd fs out st = Ret () st' → st' = completed task cmd out st.
Proof.
  destruct (decide (Task.Register task = "")) as [Hreg | Hreg].
  - rewrite complete_unregistered, complete_ThePlay by done. by inversion 1.
  - destruct fs; [rewrite complete_ThePlay; by inversion 1 |].
    by rewrite complete_Nil.
Qed.

Lemma Builtin_Run_Ret (c : Cmd) task str st :
  Builtin_Run c task str st =
    Ret (Cmd_Run c task str (world st)).1
      (mkState (to_notify st) (Results st) (spawned st) (reported st)
         (scope st) (Cmd_Run c task str (world st)).2).
Proof. unfold Builtin_Run. by destruct (Cmd_Run c task str (world st)). Qed.

Lemma runTaskItems_cons play task s fs item rest st e st' :
  runTaskItems play task s fs (item :: rest) st = Ret e st' ↔
    (∃ st1, sub_execution task s fs item st st1
            ∧ runTaskItems play task s fs rest st1 = Ret e st')
    ∨ (∃ err, e = Some err ∧ st' = st ∧ item_fails task s st item err).
Proof.
  split.
  - intros Hrun. simpl in Hrun. unfold item_fails. simpl.
    apply orReturn_Ret in Hrun as (rn & ? & [-> ->]%reading_Ret & Hrun).
    destruct (ExpandVars _ (Task.Name task)) as [name | err] eqn:Hname;
      [| destruct Hrun as [-> ->]; right; eauto].
    apply orReturn_Ret in Hrun as (ra & ? & [-> ->]%reading_Ret & Hrun).
    destruct (ExpandVars _ (Task.Args task)) as [str | err] eqn:Hstr;
      [| destruct Hrun as [-> ->]; right; eauto 10].
    apply orReturn_Ret in Hrun as (rc & ? & [-> ->]%reading_Ret & Hrun).
    destruct (MakeCommand _ task str) as [c | err] eqn:Hcmd;
      [| destruct Hrun as [-> ->]; right; eauto 10].
    apply bind_Ret in Hrun as ([] & st1 & Hrep & Hrun).
    apply bind_Ret in Hrun as (out & st2 & Hcrun & Hrun).
    apply bind_Ret in Hrun as ([] & st3 & Hdone & Hrun).
    left. exists st3. split; [| done].
    by eapply (sub_execution_intro _ _ _ _ _ _ name str c st1 out st2).
  - intros [(st1 & Hsub & Hrest) | (err & -> & -> & Hfail)].
    + destruct Hsub as [name str c sta out stb Hready Hrep Hrun Hdone].
      by rewrite (runTaskItems_pass _ _ _ _ _ _ _ _ _ _ _ _ _ _
                    Hready Hrep Hrun Hdone).
    + unfold item_fails in Hfail. simpl in Hfail. simpl. unfold orReturn.
      unfold mbind at 1. unfold M_bind at 1. unfold reading at 1.
      destruct Hfail as [-> | (name & -> & Hfail)]; [done |].
      unfold mbind at 1. unfold M_bind at 1. unfold reading at 1.
      destruct Hfail as [-> | (str & -> & Hfail)]; [done |].
      unfold mbind at 1. unfold M_bind at 1. unfold reading at 1.
      by rewrite Hfail.
Qed.

Lemma runTaskItems_spec play task s fs items st e st' :
  runTaskItems play task s fs items st = Ret e st' ↔
    match e with
    | None => sub_executions task s fs items st st'
    | Some err =>
        ∃ done item rest,
          items = done ++ item :: rest
          ∧ sub_executions task s fs done st st'
          ∧ item_fails task s st' item err
    end.
Proof.
  revert st. induction items as [| item items IH]; intros st.
  - simpl. unfold mret, M_ret. split.
    + intros [= <- <-]. constructor.
    + destruct e as [err |].
      * intros (done & item & rest & Heq & _). by destruct done.
      * by inversion 1.
  - rewrite runTaskItems_cons. split.
    + intros [(st1 & Hsub & Hrest) | (err & -> & -> & Hfail)].
      * apply IH in Hrest. destruct e as [err |].
        -- destruct Hrest as (done & item' & rest & -> & Hdone & Hfail).
           exists (item :: done), item', rest.
           split; [done |]. split; [| done]. by econstructor.
        -- by econstructor.
      * exists [], item, items. split; [done |]. split; [constructor | done].
    + destruct e as [err |].
      * intros (done & item' & rest & Heq & Hdone & Hfail).
        destruct done as [| d done]; simpl in Heq; injection Heq as -> ->.
        -- inversion Hdone; subst. right. eauto.
        -- inversion Hdone as [| ? ? ? st1 ? Hsub Hrest]; subst.
           left. exists st1. split; [done |]. apply IH. eauto 10.
      * intros Hsubs.
        inversion Hsubs as [| ? ? ? st1 ? Hsub Hrest]; subst.
        left. exists st1. split; [done |]. by apply IH.
Qed.

Lemma sub_execution_effect task s fs item st st' :
  sub_execution task s fs item st st' →
  ∃ name str c out,
    item_ready task s st item name str c
    ∧ Cmd_Run c task str (world st) = (out, world st')
    ∧ Results st' = Results st ++ [mkRunResult task (recorded out)]
    ∧ reported st' =
        reported st ++ [StartTask task (Builtin c) name str;
                        FinishTask task (Builtin c) (recorded out)]
    ∧ spawned st' = spawned st
    ∧ fs_futures (scope st') = fs_futures (scope st).
Proof.
  intros [name str c st1 out st2 Hready Hrep Hrun Hdone].
  apply complete_Ret in Hdone as ->.
  rewrite Builtin_Run_Ret in Hrun. injection Hrun as <- <-.
  injection Hrep as <-. exists name, str, c, (Cmd_Run c task str (world st)).1.
  split; [done |]. simpl. split; [by destruct (Cmd_Run _ _ _ _) |].
  rewrite <- (assoc_L (++)). repeat split.
  by destruct (decide (Task.Register task = "")).
Qed.

Lemma sub_executions_effect task s fs items st st' :
  sub_executions task s fs items st st' →
  ∃ rs,
    Results st' = Results st ++ rs
    ∧ length rs = length items
    ∧ Forall (λ r, r_Task r = task) rs
    ∧ spawned st' = spawned st
    ∧ fs_futures (scope st') = fs_futures (scope st).
Proof.
  induction 1 as [st | item rest st st1 st' Hsub _ (rs & Hrs & Hlen & Hall & Hsp & Hfut)].
  - exists []. by rewrite (right_id_L [] (++)).
  - apply sub_execution_effect in Hsub
      as (name & str & c & out & _ & _ & Hres & _ & Hsp1 & Hfut1).
    exists (mkRunResult task (recorded out) :: rs).
    rewrite Hrs, Hres, <- (assoc_L (++)). simpl.
    rewrite Hlen, Hsp, Hsp1, Hfut, Hfut1. repeat split. by constructor.
Qed.

Lemma runTaskItems_returns play task s fs items st :
  Task.Register task = "" ∨ fs = ThePlay →
  ∃ e st', runTaskItems play task s fs items st = Ret e st'.
Proof.
  intros Hreg. revert st. induction items as [| item items IH]; intros st.
  - by eexists _, _.
  - simpl. unfold orReturn.
    unfold mbind at 1. unfold M_bind at 1. unfold reading at 1.
    destruct (ExpandVars _ (Task.Name task)) as [name | err];
      [| by eexists _, _].
    unfold mbind at 1. unfold M_bind at 1. unfold reading at 1.
    destruct (ExpandVars _ (Task.Args task)) as [str | err];
      [| by eexists _, _].
    unfold mbind at 1. unfold M_bind at 1. unfold reading at 1.
    destruct (MakeCommand _ task str) as [c | err]; [| by eexists _, _].
    unfold mbind at 1. unfold M_bind at 1. unfold report at 1.
    unfold mbind at 1. unfold M_bind at 1. rewrite Builtin_Run_Ret.
    unfold mbind at 1. unfold M_bind at 1.
    rewrite (complete_bound _ _ _ _ _ Hreg). apply IH.
Qed.


Lemma runTaskItems_all_ready play task s fs items st :
  Task.Register task = "" ∨ fs = ThePlay →
  (∀ item (fsv : FutureScope Cmd), item ∈ items →
     ∃ name str c,
       let get := Scope_Get (NestedScope_Set "item" item (NewNestedScope s)) fsv in
       ExpandVars get (Task.Name task) = inl name
       ∧ ExpandVars get (Task.Args task) = inl str
       ∧ MakeCommand get task str = inl c) →
  ∃ st', runTaskItems play task s fs items st = Ret None st'.
Proof.
  intros Hreg. revert st. induction items as [| item items IH]; intros st Hall.
  - by eexists.
  - destruct (Hall item (scope st)) as (name & str & c & Hready);
      [apply list_elem_of_here |].
    rewrite (runTaskItems_step play task s fs item items st name str c
               _ _ _ Hready Hreg eq_refl (Builtin_Run_Ret _ _ _ _)).
    apply IH. intros item' fsv Hin. apply Hall. by apply list_elem_of_further.
Qed.

Lemma runTaskItems_step_explicit play task s fs item rest st name str c :
  item_ready task s st item name str c →
  Task.Register task = "" ∨ fs = ThePlay →
  runTaskItems play task s fs (item :: rest) st =
    runTaskItems play task s fs rest (sub_executed task c name str st).
Proof.
  intros Hready Hreg.
  rewrite (runTaskItems_step play task s fs item rest st name str c
             _ _ _ Hready Hreg eq_refl (Builtin_Run_Ret _ _ _ _)).
  f_equal. unfold completed, sub_executed, recorded. simpl.
  f_equal. by rewrite <- (assoc_L (++)).
Qed.

Lemma runTaskItems_loop play task s fs items st :
  Task.Register task = "" ∨ fs = ThePlay →
  runTaskItems play task s fs items st =
    Ret (loop_over_items task s items st).1 (loop_over_items task s items st).2.
Proof.
  intros Hreg. revert st. induction items as [| item items IH]; intros st;
    [done |].
  cbn [loop_over_items].
  destruct (ExpandVars _ (Task.Name task)) as [name | err] eqn:Hname.
  2: { apply runTaskItems_cons. right. exists err.
       split; [done |]. split; [done |]. by left. }
  destruct (ExpandVars _ (Task.Args task)) as [str | err] eqn:Hstr.
  2: { apply runTaskItems_cons. right. exists err.
       split; [done |]. split; [done |]. right. exists name.
       split; [done |]. by left. }
  destruct (MakeCommand _ task str) as [c | err] eqn:Hcmd.
  2: { apply runTaskItems_cons. right. exists err.
       split; [done |]. split; [done |]. right. exists name.
       split; [done |]. right. by exists str. }
  rewrite (runTaskItems_step_explicit _ _ _ _ _ _ _ name str c); [apply IH | | done].
  by repeat split.
Qed.

(** C5, as amended.  A task with items whose gate is open runs the item
    loop and nothing else, and the loop does what [loop_over_items] says:
    for each item in order it binds [item] in a fresh child scope,
    expands the name and the arguments of the task against that child,
    makes the command, runs it on the expanded arguments in the world the
    item before has left, and records and reports what it returned,
    before it turns to the next item.  When the expansions and the
    command lookup succeed for every item, [runTask] returns nil after
    one sub-execution per item, the history holds as many new results as
    there are items, all of this task, and [Run] turns to the next task.
    Otherwise the first item for which one of them fails ends the loop
    with that error, after the sub-executions of the items before it and
    of none after it, and [runTask] returns the error.  All this for a
    task that has no [Register] name or writes to the future scope of the
    play. *)
Theorem item_loop_runs_each_item (fuel : nat) play task s fs st items :
  Task.Items task = Some items →
  whenGate task s st = Ret (inl true) st →
  Task.Register task = "" ∨ fs = ThePlay →
  let e := (loop_over_items task s items st).1 in
  let st' := (loop_over_items task s items st).2 in
  runTask (S fuel) play task s fs st = Ret e st'
  ∧ ((∀ item (fsv : FutureScope Cmd), item ∈ items →
        ∃ name str c,
          let get :=
            Scope_Get (NestedScope_Set "item" item (NewNestedScope s)) fsv in
          ExpandVars get (Task.Name task) = inl name
          ∧ ExpandVars get (Task.Args task) = inl str
          ∧ MakeCommand get task str = inl c) →
     e = None)
  ∧ (e = None →
     (∃ rs, Results st' = Results st ++ rs
            ∧ length rs = length items
            ∧ Forall (λ r, r_Task r = task) rs)
     ∧ spawned st' = spawned st
     ∧ fs_futures (scope st') = fs_futures (scope st)
     ∧ (s = PlayScope → fs = ThePlay → ∀ rest,
          runTasks (S fuel) play (task :: rest) st =
            runTasks (S fuel) play rest st'))
  ∧ (∀ err, e = Some err →
       ∃ done item rest,
         items = done ++ item :: rest
         ∧ loop_over_items task s done st = (None, st')
         ∧ item_fails task s st' item err
         ∧ ∃ rs, Results st' = Results st ++ rs ∧ length rs = length done)
  ∧ (∀ item st1 st2,
       sub_execution task s fs item st1 st2 ↔
         ∃ name str c,
           item_ready task s st1 item name str c
           ∧ st2 = sub_executed task c name str st1).
Proof.
  intros Hitems Hgate Hreg e st'.
  assert (Hrun : runTaskItems play task s fs items st = Ret e st')
    by by apply runTaskItems_loop.
  split; [by rewrite (runTask_items fuel _ _ _ _ _ _ Hgate Hitems) |].
  split.
  { intros Hall.
    destruct (runTaskItems_all_ready play task s fs items st Hreg Hall)
      as [st'' Hnone].
    rewrite Hrun in Hnone. by injection Hnone as -> _. }
  split.
  { intros He. rewrite He in Hrun.
    pose proof Hrun as Hsubs. apply runTaskItems_spec in Hsubs.
    apply sub_executions_effect in Hsubs
      as (rs & Hres & Hlen & Htask & Hsp & Hfut).
    split; [by exists rs |]. split; [done |]. split; [done |].
    intros -> -> rest. apply runTasks_continue.
    by rewrite (runTask_items fuel _ _ _ _ _ _ Hgate Hitems). }
  split.
  { intros err He. rewrite He in Hrun.
    apply runTaskItems_spec in Hrun
      as (done & item & rest & -> & Hdone & Hfails).
    exists done, item, rest. split; [done |].
    pose proof (sub_executions_effect _ _ _ _ _ _ Hdone)
      as (rs & Hres & Hlen & _).
    apply (runTaskItems_spec play _ _ _ _ _ None) in Hdone.
    rewrite (runTaskItems_loop _ _ _ _ _ _ Hreg) in Hdone.
    injection Hdone as Hnone Hst.
    split; [by apply injective_projections |].
    split; [done | by exists rs]. }
  intros item st1 st2. split.
  - intros [name str c st3 out st4 Hready Hrep Hcrun Hdone].
    exists name, str, c. split; [done |].
    apply complete_Ret in Hdone as ->. rewrite Builtin_Run_Ret in Hcrun.
    injection Hcrun as <- <-. injection Hrep as <-.
    unfold completed, sub_executed, recorded. simpl.
    f_equal. by rewrite <- (assoc_L (++)).
  - intros (name & str & c & Hready & ->).
    apply (sub_execution_intro _ _ _ _ _ _ name str c _ _ _ Hready eq_refl
             (Builtin_Run_Ret _ _ _ _)).
    rewrite (complete_bound _ _ _ _ _ Hreg). f_equal.
    unfold completed, sub_executed, recorded. simpl.
    f_equal. by rewrite <- (assoc_L (++)).
Qed.

(** *** The four ways to dispatch *)



(** *** The notify set only grows *)

Lemma completed_mono task (cmd : Command Cmd) out st :
  to_notify st ⊆ to_notify (completed task cmd out st).
Proof.
  unfold completed. simpl. destruct out.2; [done |]. apply union_subseteq_r.
Qed.

Lemma sub_execution_mono task s fs item st st' :
  sub_execution task s fs item st st' → to_notify st ⊆ to_notify st'.
Proof.
  intros [name str c st1 out st2 _ Hrep Hrun Hdone].
  apply complete_Ret in Hdone. rewrite Builtin_Run_Ret in Hrun.
  injection Hrun as Hout Hst2. injection Hrep as Hst1. subst st' st2 st1.
  etrans; [| apply completed_mono]. done.
Qed.

Lemma sub_executions_mono task s fs items st st' :
  sub_executions task s fs items st st' → to_notify st ⊆ to_notify st'.
Proof.
  induction 1 as [st | item rest st st1 st' Hsub _ IH]; [done |].
  etrans; [by eapply sub_execution_mono | exact IH].
Qed.

Lemma runTaskItems_mono play task s fs items st e st' :
  runTaskItems play task s fs items st = Ret e st' →
  to_notify st ⊆ to_notify st'.
Proof.
  intros Hrun. apply runTaskItems_spec in Hrun. destruct e as [err |].
  - destruct Hrun as (done & _ & _ & _ & Hdone & _).
    by eapply sub_executions_mono.
  - by eapply sub_executions_mono.
Qed.

Section Mono.

Variable rec : Play → Task → Scope → FutureScopePtr → M Cmd World (option error).

Hypothesis rec_mono : ∀ play task s fs st e st',
  rec play task s fs st = Ret e st' → to_notify st ⊆ to_notify st'.

Lemma ModuleRun_loop_mono m args tasks st out st' :
  ModuleRun_loop rec m args tasks st = Ret out st' →
  to_notify st ⊆ to_notify st'.
Proof.
  revert st. induction tasks as [| task tasks IH]; intros st; simpl.
  - by inversion 1.
  - intros Hrun.
    apply bind_Ret in Hrun as (sm & ? & [-> ->]%reading_Ret & Hrun).
    destruct (ParseSimpleMap _ args) as [sm | err]; [| by inversion Hrun].
    apply bind_Ret in Hrun as (e & st1 & Hsub & Hrun).
    etrans; [by eapply rec_mono | by apply IH].
Qed.

Lemma Command_Run_mono cmd task str st out st' :
  Command_Run rec cmd task str st = Ret out st' →
  to_notify st ⊆ to_notify st'.
Proof.
  destruct cmd as [c | m]; simpl.
  - rewrite Builtin_Run_Ret. by inversion 1.
  - apply ModuleRun_loop_mono.
Qed.

Lemma runTask_body_mono play task s fs st e st' :
  runTask_body rec play task s fs st = Ret e st' →
  to_notify st ⊆ to_notify st'.
Proof.
  unfold runTask_body. intros Hrun.
  apply orReturn_Ret in Hrun as (go & st1 & Hgate & Hrun).
  apply whenGate_state in Hgate as ->.
  destruct go as [[] | err]; [| by inversion Hrun | by destruct Hrun as [_ ->]].
  destruct (Task.Items task) as [items |]; [by eapply runTaskItems_mono |].
  apply orReturn_Ret in Hrun as (rn & ? & [-> ->]%reading_Ret & Hrun).
  destruct (ExpandVars _ (Task.Name task)) as [name | err];
    [| by destruct Hrun as [_ ->]].
  apply orReturn_Ret in Hrun as (ra & ? & [-> ->]%reading_Ret & Hrun).
  destruct (ExpandVars _ (Task.Args task)) as [str | err];
    [| by destruct Hrun as [_ ->]].
  apply orReturn_Ret in Hrun as (rc & st1 & Hcmd & Hrun).
  apply resolveCommand_state in Hcmd as ->.
  destruct rc as [cmd | err]; [| by destruct Hrun as [_ ->]].
  apply bind_Ret in Hrun as ([] & st1 & [= <-] & Hrun).
  destruct (decide (Task.Future task = "")).
  - destruct (Task.Async task).
    + by inversion Hrun.
    + apply bind_Ret in Hrun as (out & st2 & Hcrun & Hrun).
      apply bind_Ret in Hrun as ([] & st3 & Hdone & [= _ <-]).
      apply Command_Run_mono in Hcrun. apply complete_Ret in Hdone as ->.
      etrans; [exact Hcrun | apply completed_mono].
  - destruct fs; [| done].
    rewrite bind_Ret in Hrun. destruct Hrun as ([] & st2 & [= <-] & [= _ <-]).
    done.
Qed.

End Mono.

Lemma runTask_mono fuel play task s fs st e st' :
  runTask fuel play task s fs st = Ret e st' → to_notify st ⊆ to_notify st'.
Proof.
  revert play task s fs st e st'. induction fuel as [| fuel IH];
    intros play task s fs st e st'; simpl; [done |].
  by apply runTask_body_mono.
Qed.

Lemma runHandlers_mono fuel play tasks st e st' :
  runHandlers fuel play tasks st = Ret e st' → to_notify st ⊆ to_notify st'.
Proof.
  revert st. induction tasks as [| task tasks IH]; intros st; simpl.
  - by inversion 1.
  - unfold mbind at 1. unfold M_bind at 1. unfold ShouldRunHandler at 1.
    destruct (bool_decide (Task.Name task ∈ to_notify st)); [| apply IH].
    intros Hrun. apply bind_Ret in Hrun as (err & st1 & Htask & Hrun).
    apply runTask_mono in Htask.
    destruct err; [by injection Hrun as _ <- |].
    etrans; [exact Htask | by apply IH].
Qed.

Lemma handlerPhase_mono fuel plays st e st' :
  handlerPhase fuel plays st = Ret e st' → to_notify st ⊆ to_notify st'.
Proof.
  revert st. induction plays as [| play plays IH]; intros st; simpl.
  - by inversion 1.
  - intros Hrun.
    apply bind_Ret in Hrun as ([] & st1 & [= <-] & Hrun).
    apply bind_Ret in Hrun as (err & st2 & Hhs & Hrun).
    apply runHandlers_mono in Hhs. simpl in Hhs.
    destruct err; [by injection Hrun as _ <- |].
    apply bind_Ret in Hrun as ([] & st3 & [= <-] & Hrun).
    apply IH in Hrun. simpl in Hrun. by etrans.
Qed.

(** *** More fuel changes nothing *)

Section Refine.

Variables rec1 rec2 :
  Play → Task → Scope → FutureScopePtr → M Cmd World (option error).

Hypothesis rec_refines : ∀ play task s fs st e st',
  rec1 play task s fs st = Ret e st' → rec2 play task s fs st = Ret e st'.

Lemma ModuleRun_loop_refines m args tasks st out st' :
  ModuleRun_loop rec1 m args tasks st = Ret out st' →
  ModuleRun_loop rec2 m args tasks st = Ret out st'.
Proof.
  revert st. induction tasks as [| task tasks IH]; intros st;
    cbn [ModuleRun_loop]; [done |].
  intros Hrun.
  apply bind_Ret in Hrun as (sm & st1 & Hparse & Hrun).
  apply bind_Ret. exists sm, st1. split; [done |].
  destruct sm as [sm | err]; [| done].
  apply bind_Ret in Hrun as (e & st2 & Hsub & Hrun).
  apply bind_Ret. exists e, st2. split; [by apply rec_refines | by apply IH].
Qed.

Lemma runTask_body_refines play task s fs st e st' :
  runTask_body rec1 play task s fs st = Ret e st' →
  runTask_body rec2 play task s fs st = Ret e st'.
Proof.
  unfold runTask_body. intros Hrun.
  apply orReturn_Ret in Hrun as (go & st1 & Hgate & Hrun).
  apply orReturn_Ret. exists go, st1. split; [done |].
  destruct go as [[] | err]; [| done | done].
  destruct (Task.Items task) as [items |]; [done |].
  apply orReturn_Ret in Hrun as (rn & st2 & Hname & Hrun).
  apply orReturn_Ret. exists rn, st2. split; [done |].
  destruct rn as [name | err]; [| done].
  apply orReturn_Ret in Hrun as (ra & st3 & Hstr & Hrun).
  apply orReturn_Ret. exists ra, st3. split; [done |].
  destruct ra as [str | err]; [| done].
  apply orReturn_Ret in Hrun as (rc & st4 & Hcmd & Hrun).
  apply orReturn_Ret. exists rc, st4. split; [done |].
  destruct rc as [cmd | err]; [| done].
  apply bind_Ret in Hrun as ([] & st5 & Hrep & Hrun).
  apply bind_Ret. exists (), st5. split; [done |].
  destruct (decide (Task.Future task = "")); [| done].
  destruct (Task.Async task); [done |].
  apply bind_Ret in Hrun as (out & st6 & Hcrun & Hrun).
  apply bind_Ret. exists out, st6. split; [| done].
  destruct cmd as [c | m]; [done |]. by apply ModuleRun_loop_refines.
Qed.

End Refine.

(** What [runTask] returns with some fuel it returns with any more. *)
Lemma runTask_more_fuel (fuel fuel' : nat) play task s fs st e st' :
  (fuel ≤ fuel')%nat →
  runTask fuel play task s fs st = Ret e st' →
  runTask fuel' play task s fs st = Ret e st'.
Proof.
  intros Hle. revert fuel' Hle play task s fs st e st'.
  induction fuel as [| fuel IH]; intros fuel' Hle play task s fs st e st';
    [done |].
  destruct fuel' as [| fuel']; [lia |]. simpl.
  apply runTask_body_refines. intros ? ? ? ? ? ? ?. apply IH. lia.
Qed.

(** In a play without modules [runTask] needs no more than one unit of
    fuel, and returns unless it writes through a nil future scope. *)
Lemma runTask_returns play task s st :
  Modules play = ∅ →
  ∃ e st', runTask 1 play task s ThePlay st = Ret e st'.
Proof.
  intros Hmods. simpl. unfold runTask_body, orReturn.
  unfold mbind at 1. unfold M_bind at 1.
  destruct (whenGate task s st) as [go st1 | |] eqn:Hgate;
    [| unfold whenGate in Hgate; by destruct (decide _)..].
  destruct go as [[] | err]; [| by eexists _, _..].
  destruct (Task.Items task) as [items |].
  { apply runTaskItems_returns. by right. }
  unfold mbind at 1. unfold M_bind at 1. unfold reading at 1.
  destruct (ExpandVars _ (Task.Name task)) as [name | err];
    [| by eexists _, _].
  unfold mbind at 1. unfold M_bind at 1. unfold reading at 1.
  destruct (ExpandVars _ (Task.Args task)) as [str | err];
    [| by eexists _, _].
  unfold mbind at 1. unfold M_bind at 1. unfold resolveCommand at 1.
  rewrite Hmods, lookup_empty.
  unfold mbind at 1. unfold M_bind at 1. unfold reading at 1.
  destruct (MakeCommand _ task str) as [c | err]; [| by eexists _, _].
  cbn [mret M_ret].
  unfold mbind at 1. unfold M_bind at 1. unfold report at 1.
  destruct (decide (Task.Future task = "")); [| by eexists _, _].
  destruct (Task.Async task); [by eexists _, _ |].
  unfold mbind at 1. unfold M_bind at 1. cbn [Command_Run].
  rewrite Builtin_Run_Ret.
  unfold mbind at 1. unfold M_bind at 1. rewrite complete_ThePlay.
  by eexists _, _.
Qed.

(** *** Handlers *)

Lemma runHandlers_app fuel play pre post st :
  runHandlers fuel play (pre ++ post) st =
    match runHandlers fuel play pre st with
    | Ret None st' => runHandlers fuel play post st'
    | other => other
    end.
Proof.
  revert st. induction pre as [| task pre IH]; intros st; simpl; [done |].
  unfold mbind at 1 3. unfold M_bind at 1 3. unfold ShouldRunHandler.
  destruct (bool_decide (Task.Name task ∈ to_notify st)); [| apply IH].
  unfold mbind, M_bind.
  destruct (runTask fuel play task PlayScope ThePlay st) as [[e |] st' | |];
    simpl; [done | apply IH | done | done].
Qed.

Lemma runHandlers_cons fuel play h post st :
  runHandlers fuel play (h :: post) st =
    if bool_decide (Task.Name h ∈ to_notify st)
    then (err ← runTask fuel play h PlayScope ThePlay;
          match err with
          | Some e => mret (Some e)
          | None => runHandlers fuel play post
          end) st
    else runHandlers fuel play post st.
Proof.
  simpl. unfold mbind at 1. unfold M_bind at 1. unfold ShouldRunHandler.
  by destruct (bool_decide _).
Qed.

Lemma AddNotify_idempotent (n : string) st st' :
  AddNotify n st = Ret () st' →
  n ∈ to_notify st' ∧ AddNotify n st' = Ret () st'.
Proof.
  unfold AddNotify. intros [= <-]. simpl. split; [set_solver |].
  by rewrite (assoc_L (∪)), (idemp_L (∪)).
Qed.

(** C3, as amended.  When the handler phase, begun in [st0], comes to
    the handler [h] of a play in the state [st1], the notify set of [st1]
    holds every name that was in it when the phase began, for no name is
    ever removed, and possibly names added since by handlers that ran
    before [h].  [h] runs, once, when its name is in that set, and is
    passed over when it is not; so a handler that was notified during the
    task phase runs when the phase comes to it.  Adding a name twice is
    the same as adding it once.  A command that returns an error adds no
    name. *)
Theorem handler_runs_iff_notified (fuel : nat) plays_before play
    pre h post st0 sta stb st1 :
  Handlers play = pre ++ h :: post →
  handlerPhase fuel plays_before st0 = Ret None sta →
  setScope (NewFutureScope (Vars play)) sta = Ret () stb →
  runHandlers fuel play pre stb = Ret None st1 →
  to_notify st0 ⊆ to_notify st1
  ∧ (Task.Name h ∈ to_notify st0 → Task.Name h ∈ to_notify st1)
  ∧ (Task.Name h ∈ to_notify st1 →
     runHandlers fuel play (Handlers play) stb =
       (err ← runTask fuel play h PlayScope ThePlay;
        match err with
        | Some e => mret (Some e)
        | None => runHandlers fuel play post
        end) st1)
  ∧ (Task.Name h ∉ to_notify st1 →
     runHandlers fuel play (Handlers play) stb = runHandlers fuel play post st1)
  ∧ (∀ (n : string) (st st' : State Cmd World),
       AddNotify n st = Ret () st' →
       n ∈ to_notify st' ∧ AddNotify n st' = Ret () st')
  ∧ (∀ task (cmd : Command Cmd) fs res err (st st' : State Cmd World),
       complete task cmd fs (res, Some err) st = Ret () st' →
       to_notify st' = to_notify st).
Proof.
  intros Hhs Hbefore Hscope Hpre.
  assert (Hmono : to_notify st0 ⊆ to_notify st1).
  { apply handlerPhase_mono in Hbefore. apply runHandlers_mono in Hpre.
    injection Hscope as <-. simpl in Hpre. by etrans. }
  split; [exact Hmono |]. split; [by apply Hmono |].
  rewrite Hhs, runHandlers_app, Hpre, runHandlers_cons.
  split; [| split; [| split]].
  - intros Hin. by rewrite bool_decide_eq_true_2.
  - intros Hnot. by rewrite bool_decide_eq_false_2.
  - apply AddNotify_idempotent.
  - intros task cmd fs res err st st' Hdone.
    by apply complete_Ret in Hdone as ->.
Qed.

(** *** Modules *)

Section ModuleLoop.

Variable rec : Play → Task → Scope → FutureScopePtr → M Cmd World (option error).

Lemma ModuleRun_loop_result m args tasks st out st' :
  ModuleRun_loop rec m args tasks st = Ret out st' →
  out = (Some (NewResult true), None)
  ∨ ∃ err, out = (None, Some err) ∧ tasks ≠ []
      ∧ ParseSimpleMap (Scope_Get (NewNestedScope (m_Scope m)) (scope st'))
          args = inr err.
Proof.
  revert st. induction tasks as [| task tasks IH]; intros st;
    cbn [ModuleRun_loop].
  - intros [= <- _]. by left.
  - intros Hrun.
    apply bind_Ret in Hrun as (sm & ? & [-> ->]%reading_Ret & Hrun).
    destruct (ParseSimpleMap (Scope_Get _ (scope st)) args)
      as [sm | err] eqn:Hparse.
    + apply bind_Ret in Hrun as (e & st1 & _ & Hrun).
      apply IH in Hrun as [-> | (err & -> & _ & Hparse')]; [by left |].
      right. by exists err.
    + injection Hrun as <- <-. right. by exists err.
Qed.

Lemma ModuleRun_loop_returns m args tasks st :
  (∀ get, ∃ sm, ParseSimpleMap get args = inl sm) →
  (∀ task s st1, task ∈ tasks →
     ∃ e st2, rec (m_Play m) task s Nil st1 = Ret e st2) →
  ∃ st', ModuleRun_loop rec m args tasks st = Ret (Some (NewResult true), None) st'.
Proof.
  intros Hparse. revert st.
  induction tasks as [| task tasks IH]; intros st Hrec; cbn [ModuleRun_loop].
  - by eexists.
  - unfold mbind at 1. unfold M_bind at 1. unfold reading at 1.
    destruct (Hparse (Scope_Get (NewNestedScope (m_Scope m)) (scope st)))
      as [sm ->].
    unfold mbind at 1. unfold M_bind at 1.
    edestruct Hrec as (e & st2 & ->); [apply list_elem_of_here |].
    apply IH. intros task' s st1 Hin. apply Hrec. by apply list_elem_of_further.
Qed.

Lemma ModuleRun_loop_parse_error m args tasks st err :
  tasks ≠ [] →
  ParseSimpleMap (Scope_Get (NewNestedScope (m_Scope m)) (scope st)) args
    = inr err →
  ModuleRun_loop rec m args tasks st = Ret (None, Some err) st.
Proof.
  intros Hne Hparse. destruct tasks as [| task tasks]; [done |].
  cbn [ModuleRun_loop]. unfold mbind, M_bind, reading. by rewrite Hparse.
Qed.

End ModuleLoop.

(** C9, as amended.  [ModuleRun.Run] returns either a fresh result that
    reports a change, with a nil error, or (only for a module that has
    tasks) the error of [ParseSimpleMap] on the argument text, with a nil
    result.  What [runTask] returns for the tasks of the module is
    dropped: when the argument text parses and those calls return, with
    an error or without, [Run] returns the changed result and nil.  A
    task dispatched synchronously to a module, which has no [Register]
    name or writes to the future scope of the play, therefore has that
    result recorded and its [Notify] names applied once the run of the
    module has returned, unless the parse failed, in which case the
    failed result is recorded and no name is added. *)
Theorem module_run_result (fuel : nat) (m : ModuleRun) (args : string) st :
  (∀ out st',
      ModuleRun_Run (runTask fuel) m args st = Ret out st' →
      out = (Some (NewResult true), None)
      ∨ ∃ err, out = (None, Some err) ∧ ModTasks (m_Module m) ≠ []
          ∧ ParseSimpleMap
              (Scope_Get (NewNestedScope (m_Scope m)) (scope st')) args
            = inr err)
  ∧ ((∀ get, ∃ sm, ParseSimpleMap get args = inl sm) →
     (∀ task s st1, task ∈ ModTasks (m_Module m) →
        ∃ e st2, runTask fuel (m_Play m) task s Nil st1 = Ret e st2) →
     ∃ st', ModuleRun_Run (runTask fuel) m args st =
              Ret (Some (NewResult true), None) st')
  ∧ (∀ err,
      ModTasks (m_Module m) ≠ [] →
      ParseSimpleMap (Scope_Get (NewNestedScope (m_Scope m)) (scope st)) args
        = inr err →
      ModuleRun_Run (runTask fuel) m args st = Ret (None, Some err) st)
  ∧ (∀ play task s fs name st1 out st2,
      ready play task s st name args (ModuleCmd m) →
      Task.Future task = "" → Task.Async task = false →
      Task.Register task = "" ∨ fs = ThePlay →
      report (StartTask task (ModuleCmd m) name args) st = Ret () st1 →
      ModuleRun_Run (runTask fuel) m args st1 = Ret out st2 →
      ∃ st3,
        runTask (S fuel) play task s fs st = Ret None st3
        ∧ ((out = (Some (NewResult true), None)
            ∧ Results st3 =
                Results st2 ++ [mkRunResult task (Some (NewResult true))]
            ∧ to_notify st3 = list_to_set (Task.Notify task) ∪ to_notify st2)
           ∨ (∃ err, out = (None, Some err)
                ∧ Results st3 =
                    Results st2 ++ [mkRunResult task (Some (failedResult err))]
                ∧ to_notify st3 = to_notify st2))).
Proof.
  unfold ModuleRun_Run. split; [| split; [| split]].
  - intros out st'. apply ModuleRun_loop_result.
  - apply ModuleRun_loop_returns.
  - intros err. apply ModuleRun_loop_parse_error.
  - intros play task s fs name st1 out st2 Hready Hfut Hasync Hreg Hrep Hrun.
    eexists. split; [by eapply runTask_sync |].
    apply ModuleRun_loop_result in Hrun as [-> | (err & -> & _)].
    + left. by repeat split.
    + right. exists err. by repeat split.
Qed.

(** *** The [When] gate *)


End Facts.

(** *** The properties at work on the sample *)

Import Sample SampleRuns.

Ltac sample_ready := unfold ready; repeat split; vm_compute; reflexivity.

(** C1, at a task of a module.  The module of [with_probe] has one
    task, [registered], which has a [Register] name and whose command
    returns an error.  [ModuleRun.Run] hands it the future scope that
    [runTask] never set, and the write of the result through it comes
    before the error is looked at: the call panics, no failed result is
    recorded and the run does not go on.  The same task run with the
    future scope of the play is recorded as failed. *)
Lemma command_error_in_module_task_panics :
  Cmd_Run "broken" registered "x" []
    = ((Some (NewResult true), Some (OtherError "boom")), ["x"])
  ∧ runTask 1 with_probe registered (NewNestedScope PlayScope) Nil init
    = Panic
  ∧ Run 2 [with_probe] init = Panic
  ∧ ∃ st',
      runTask 1 with_probe registered PlayScope ThePlay init = Ret None st'
      ∧ Results st' =
          [mkRunResult registered (Some (failedResult (OtherError "boom")))].
Proof.
  split; [reflexivity |]. split; [vm_compute; reflexivity |].
  split; [vm_compute; reflexivity |].
  eexists. split; vm_compute; reflexivity.
Qed.

(** The command of [failing] returns an error: a failed result is
    recorded and nothing is notified. *)
Lemma command_error_is_recorded_witness :
  ∃ st3,
    runTask 1 chained failing PlayScope ThePlay init = Ret None st3
    ∧ Results st3 =
        [mkRunResult failing (Some (failedResult (OtherError "boom")))]
    ∧ to_notify st3 = ∅.
Proof.
  destruct (command_error_is_recorded 0 chained failing PlayScope ThePlay init
              (or_introl eq_refl)) as (Hsync & _ & _).
  edestruct (Hsync "restart" "now" (Builtin "fail"))
    as (st3 & Hrun & _ & Hres & _ & Hnot).
  - sample_ready.
  - reflexivity.
  - reflexivity.
  - reflexivity.
  - vm_compute. reflexivity.
  - exists st3. split; [exact Hrun |]. split; [exact Hres | exact Hnot].
Defined.

(** C2, the claim as it stands.  The command of [unchanged] returns
    without error a result that reports no change; its [Notify] name is
    in the notify set all the same, and the handler of that name is due. *)
Lemma unchanged_result_notifies :
  ∃ st',
    Cmd_Run "same" unchanged "x" [] = ((Some (NewResult false), None), ["x"])
    ∧ runTask 1 chained unchanged PlayScope ThePlay init = Ret None st'
    ∧ Results st' = [mkRunResult unchanged (Some (NewResult false))]
    ∧ Task.Notify unchanged = ["h1"]
    ∧ ("h1" ∉ to_notify init)
    ∧ "h1" ∈ to_notify st'
    ∧ ShouldRunHandler "h1" st' = Ret true st'.
Proof.
  eexists. split; [reflexivity |]. split; [vm_compute; reflexivity |].
  split; [reflexivity |]. split; [reflexivity |].
  split; [apply (bool_decide_unpack _); vm_compute; exact I |].
  split; [apply (bool_decide_unpack _); vm_compute; exact I |].
  vm_compute. reflexivity.
Qed.

Lemma success_notifies_witness :
  ∃ st3,
    runTask 1 chained unchanged PlayScope ThePlay init = Ret None st3
    ∧ ShouldRunHandler "h1" st3 = Ret true st3.
Proof.
  destruct (success_notifies 0 chained unchanged PlayScope ThePlay init
              (or_introl eq_refl)) as [Hsync _].
  edestruct (Hsync "check" "x" (Builtin "same"))
    as (st3 & Hrun & _ & _ & Hdue).
  - sample_ready.
  - reflexivity.
  - reflexivity.
  - reflexivity.
  - vm_compute. reflexivity.
  - exists st3. split; [exact Hrun |]. apply Hdue.
    apply (bool_decide_unpack _). vm_compute. exact I.
Defined.

(** C3, the claim as it stands.  The task phase of [chained] notifies
    [h1] alone; in the handler phase [h1] runs and notifies [h2], which
    then runs although its name was not in the notify set when the task
    phase ended. *)
Lemma handler_notified_by_handler :
  ∃ st1 st2 st',
    taskPhase 1 [chained] init = Ret None st1
    ∧ "h1" ∈ to_notify st1
    ∧ ("h2" ∉ to_notify st1)
    ∧ handlerPhase 1 [chained] st1 = Ret None st2
    ∧ map (λ r, Task.Name (r_Task r)) (Results st2) = ["check"; "h1"; "h2"]
    ∧ Run 1 [chained] init = Ret None st'
    ∧ map (λ r, Task.Name (r_Task r)) (Results st') = ["check"; "h1"; "h2"].
Proof.
  eexists _, _, _. split; [vm_compute; reflexivity |].
  split; [apply (bool_decide_unpack _); vm_compute; exact I |].
  split; [apply (bool_decide_unpack _); vm_compute; exact I |].
  split; [vm_compute; reflexivity |].
  split; [vm_compute; reflexivity |].
  split; vm_compute; reflexivity.
Qed.

Lemma handler_runs_iff_notified_witness :
  ∃ st1,
    runHandlers 1 chained [h1] (notified {[ "h1" ]}) = Ret None st1
    ∧ to_notify (notified {[ "h1" ]}) ⊆ to_notify st1
    ∧ runHandlers 1 chained [h1; h2] (notified {[ "h1" ]}) =
        (err ← runTask 1 chained h2 PlayScope ThePlay;
         match err with
         | Some e => mret (Some e)
         | None => runHandlers 1 chained []
         end) st1.
Proof.
  edestruct (handler_runs_iff_notified 1 [] chained [h1] h2 []
               (notified {[ "h1" ]}))
    as (Hmono & _ & Hrun & _).
  - reflexivity.
  - reflexivity.
  - reflexivity.
  - vm_compute. reflexivity.
  - eexists. split; [vm_compute; reflexivity |].
    split; [exact Hmono |]. apply Hrun.
    apply (bool_decide_unpack _). vm_compute. exact I.
Defined.


(** A loop over two items performs two sub-executions, the commands
    having run on [a] and then on [b]. *)
Lemma item_loop_runs_each_item_witness :
  ∃ st',
    runTask 1 chained (looped [BValue (VStr "a"); BValue (VStr "b")])
      PlayScope ThePlay init = Ret None st'
    ∧ map (λ r, Task.Name (r_Task r)) (Results st') = ["each"; "each"]
    ∧ world st' = ["a"; "b"].
Proof.
  destruct (item_loop_runs_each_item 0 chained
              (looped [BValue (VStr "a"); BValue (VStr "b")])
              PlayScope ThePlay init
              [BValue (VStr "a"); BValue (VStr "b")] eq_refl eq_refl
              (or_introl eq_refl))
    as (Hrun & _).
  eexists. split; [exact Hrun |]. split; vm_compute; reflexivity.
Defined.

(** C5, the claim as it stands.  The task [mixed] has three items and
    an open gate; its arguments do not expand for the second item.  One
    sub-execution is performed, not three: the command has run on the
    first item alone, one result is in the history, and [runTask]
    returns the error of the expansion. *)
Lemma item_loop_stops_at_failing_item :
  Task.Items mixed
    = Some [BValue (VStr "a"); BValue (VInt 1); BValue (VStr "c")]
  ∧ Task.When mixed = ""
  ∧ ∃ st',
      runTask 1 chained mixed PlayScope ThePlay init
        = Ret (Some (OtherError "undefined variable item")) st'
      ∧ sub_executions mixed PlayScope ThePlay [BValue (VStr "a")] init st'
      ∧ length (Results st') = 1%nat
      ∧ world st' = ["a"].
Proof.
  split; [reflexivity |]. split; [reflexivity |].
  eexists. split; [vm_compute; reflexivity |].
  split; [| split; reflexivity].
  apply (runTaskItems_spec chained _ _ _ _ _ None). vm_compute. reflexivity.
Qed.



(** C9, the claim as it stands.  The argument text of the call does not
    parse: the run of the module returns that error and no result, the
    task is recorded as failed and its [Notify] name is not applied. *)
Lemma module_run_parse_error :
  ModuleRun_Run (runTask 1) (m_run "'") "'" init
  = Ret (None, Some (OtherError "unterminated quote")) init
  ∧ ∃ st',
      runTask 2 with_module (call "'") PlayScope ThePlay init = Ret None st'
      ∧ Results st' =
          [mkRunResult (call "'")
             (Some (failedResult (OtherError "unterminated quote")))]
      ∧ Task.Notify (call "'") = ["h1"]
      ∧ "h1" ∉ to_notify st'.
Proof.
  split; [vm_compute; reflexivity |].
  eexists. split; [vm_compute; reflexivity |].
  split; [reflexivity |]. split; [reflexivity |].
  apply (bool_decide_unpack _). vm_compute. exact I.
Qed.

(** The task of the module fails to resolve its command; the run of the
    module returns the changed result and nil all the same. *)
Lemma module_run_result_witness :
  ∃ st',
    ModuleRun_Run (runTask 1) (m_run "x") "x" init
    = Ret (Some (NewResult true), None) st'
    ∧ runTask 1 with_module inner PlayScope Nil init
      = Ret (Some (OtherError "unknown command nope")) init.
Proof.
  destruct (module_run_result 1 (m_run "x") "x" init) as (_ & Hreturns & _).
  destruct Hreturns as [st' Hrun].
  - intros get. eexists. reflexivity.
  - intros task s st1 Hin. apply list_elem_of_singleton in Hin as ->.
    eexists _, _. vm_compute. reflexivity.
  - exists st'. split; [exact Hrun |]. vm_compute. reflexivity.
Defined.


End RunnerFacts.

(** * Further properties *)

(** ** builtin.go: capture, results and the three process commands *)

Module BuiltinMore.

Import Builtin Commands.

Lemma append_cons (c : ascii) (s t : string) :
  String c s ++ t = String c (s ++ t).
Proof. reflexivity. Qed.

Lemma append_empty_l (s : string) : "" ++ s = s.
Proof. reflexivity. Qed.

Lemma append_assoc (s1 s2 s3 : string) : (s1 ++ s2) ++ s3 = s1 ++ (s2 ++ s3).
Proof.
  induction s1 as [| c s1 IH]; [done |]. by rewrite !append_cons, IH.
Qed.

Lemma append_empty_r (s : string) : s ++ "" = s.
Proof.
  induction s as [| c s IH]; [done |]. by rewrite append_cons, IH.
Qed.

Lemma length_append (s1 s2 : string) :
  String.length (s1 ++ s2) = (String.length s1 + String.length s2)%nat.
Proof.
  induction s1 as [| c s1 IH]; [done |]. rewrite append_cons. simpl.
  by rewrite IH.
Qed.

Lemma chars_append (s1 s2 : string) :
  list_ascii_of_string (s1 ++ s2) =
    (list_ascii_of_string s1 ++ list_ascii_of_string s2)%list.
Proof.
  induction s1 as [| c s1 IH]; [done |]. rewrite append_cons. simpl.
  by rewrite IH.
Qed.

(** *** The reader loop of [captureCmd] *)

Lemma read_lines_prefix (cur s : string) :
  ∃ rest, cur ++ s = read_lines cur s ++ rest.
Proof.
  revert cur. induction s as [| c s IH]; intros cur; simpl.
  - by exists (cur ++ "").
  - destruct (decide (c = newline)) as [-> | Hc].
    + destruct (decide _); [| by eexists].
      destruct (IH "") as [rest Hrest]. rewrite append_empty_l in Hrest.
      exists rest. by rewrite append_assoc, append_cons, <- Hrest.
    + destruct (IH (cur ++ String c "")) as [rest Hrest]. exists rest.
      by rewrite <- Hrest, append_assoc.
Qed.

Lemma read_lines_ends (cur s : string) :
  read_lines cur s = "" ∨ ∃ p, read_lines cur s = p ++ String newline "".
Proof.
  revert cur. induction s as [| c s IH]; intros cur; simpl; [by left |].
  destruct (decide (c = newline)) as [-> | Hc]; [| apply IH].
  destruct (decide _); [| by left]. right.
  destruct (IH "") as [-> | [p ->]].
  - by exists cur.
  - exists (cur ++ String newline p). by rewrite append_assoc.
Qed.

(** X1.  Whatever the child writes, each of the two captured texts is a
    prefix of what the child wrote on that stream, and is either empty or
    ends with a newline: [captureCmd] keeps whole lines only, and what
    follows the last newline is lost. *)
Theorem captured_is_whole_lines (c : Child) (show : bool) :
  let out := (captureCmd c show).1.1 in
  let err := (captureCmd c show).1.2 in
  (∃ rest, child_stdout c = out ++ rest)
  ∧ (out = "" ∨ ∃ p, out = p ++ String newline "")
  ∧ (∃ rest, child_stderr c = err ++ rest)
  ∧ (err = "" ∨ ∃ p, err = p ++ String newline "").
Proof.
  unfold captureCmd.
  destruct (stdout_pipe c); [by repeat split; eauto |].
  destruct (stderr_pipe c); [by repeat split; eauto |]. simpl.
  split; [apply (read_lines_prefix "") |].
  split; [apply read_lines_ends |].
  split; [apply (read_lines_prefix "") | apply read_lines_ends].
Qed.

Lemma read_lines_line (cur l tail : string) :
  newline ∉ list_ascii_of_string l →
  read_lines cur (l ++ String newline tail) =
    if decide (String.length (cur ++ l) + 1 ≤ 4096)%nat
    then (cur ++ l) ++ String newline (read_lines "" tail)
    else "".
Proof.
  revert cur. induction l as [| c l IH]; intros cur Hnl.
  - by rewrite append_empty_l, append_empty_r.
  - simpl in Hnl. apply not_elem_of_cons in Hnl as [Hc Hl].
    rewrite append_cons. simpl.
    rewrite decide_False by done. rewrite IH by done.
    by rewrite append_assoc.
Qed.

Lemma read_lines_no_newline (cur s : string) :
  newline ∉ list_ascii_of_string s → read_lines cur s = "".
Proof.
  revert cur. induction s as [| c s IH]; intros cur Hnl; simpl; [done |].
  simpl in Hnl. apply not_elem_of_cons in Hnl as [Hc Hs].
  rewrite decide_False by done. by apply IH.
Qed.

(** X2.  The reader loop line by line.  Lines of fewer than 4096 bytes,
    each followed by its newline, are captured as they are, and capture
    goes on with what follows them; a rest without a newline is dropped;
    a line of 4096 bytes or more, which with its newline does not fit the
    reader's buffer, ends the capture: neither it nor anything after it
    is kept. *)
Theorem capture_by_lines (ls : list string) (tail : string) :
  Forall (λ l, (newline ∉ list_ascii_of_string l)
               ∧ (String.length l < 4096)%nat) ls →
  let whole := foldr (λ l acc, l ++ String newline acc) "" ls in
  read_lines "" (whole ++ tail) = whole ++ read_lines "" tail
  ∧ (newline ∉ list_ascii_of_string tail →
     read_lines "" (whole ++ tail) = whole)
  ∧ (∀ l after,
       newline ∉ list_ascii_of_string l → (4096 ≤ String.length l)%nat →
       read_lines "" (whole ++ l ++ String newline after) = whole).
Proof.
  intros Hls whole.
  assert (Hgo : ∀ t, read_lines "" (whole ++ t) = whole ++ read_lines "" t).
  { intros t. subst whole. induction Hls as [| l ls [Hnl Hlen] _ IH]; [done |].
    cbn [foldr]. rewrite !append_assoc, !append_cons.
    rewrite read_lines_line by done.
    rewrite append_empty_l, decide_True by lia. by rewrite IH. }
  split; [apply Hgo |]. split.
  - intros Hnl. by rewrite Hgo, read_lines_no_newline, append_empty_r.
  - intros l after Hnl Hlen. rewrite Hgo, read_lines_line by done.
    rewrite append_empty_l, decide_False by lia. apply append_empty_r.
Qed.

Section Exec.

Variable spawn : option (list string) → string → list string → Child.
Variable show : bool.
Variable TrimSpace : string → string.
Variable Split : string → list string * option error.
Variable File : string → string.
Variable Stat : string → option error.

(** *** [runCmd] *)

Lemma RunCommand_shape name args :
  let '(stdout, stderr, err) := captureCmd (spawn None name args) show in
  RunCommand spawn show (name :: args) =
    match err with
    | Some (ExitError _) => Some (Some (mkCommandResult 1 stdout stderr), None)
    | Some e => Some (None, Some e)
    | None => Some (Some (mkCommandResult 0 stdout stderr), None)
    end.
Proof. unfold RunCommand. by destruct (captureCmd _ _) as [[? ?] ?]. Qed.

Lemma RunCommand_cases parts :
  parts = [] ∧ RunCommand spawn show parts = None
  ∨ (∃ cmd, RunCommand spawn show parts = Some (Some cmd, None)
            ∧ (ReturnCode cmd = 0 ∨ ReturnCode cmd = 1))
  ∨ (∃ e, RunCommand spawn show parts = Some (None, Some e)).
Proof.
  destruct parts as [| name args]; [by left | right].
  pose proof (RunCommand_shape name args) as Hshape.
  destruct (captureCmd _ _) as [[out err] [[status | msg] |]]; rewrite Hshape.
  - left. eexists. split; [done |]. by right.
  - right. by eexists.
  - left. eexists. split; [done |]. by left.
Qed.

Lemma shellResult_cases cmd :
  let stdout := TrimSpace (Stdout cmd) in
  let stderr := TrimSpace (Stderr cmd) in
  let fields := shellFields TrimSpace cmd in
  shellResult TrimSpace cmd = Some (Result_Add "_result" (VStr "") fields)
  ∨ (stderr = "" ∧ (String.length stdout < 60)%nat
     ∧ shellResult TrimSpace cmd =
         Some (Result_Add "_result"
                 (VStr ("rc: " ++ itoa (ReturnCode cmd) ++ ", stdout: "
                        ++ String quote
                             (Replace_newlines stdout ++ String quote "")))
                 fields))
  ∨ shellResult TrimSpace cmd = Some fields.
Proof.
  intros stdout stderr fields. unfold shellResult.
  rewrite BuiltinFacts.renderShellResult_fields. cbv zeta.
  fold stdout stderr fields.
  destruct (decide _); [by left |].
  destruct (decide _) as [[Herr Hlen] |]; [| by right; right].
  right; left. apply BuiltinFacts.length_zero_empty in Herr. done.
Qed.

(** X3.  [runCmd] panics on an empty argument list and on nothing else:
    with at least the name of a program it returns, because the type
    assertions of [renderShellResult] always meet the types [runCmd] has
    stored.  It returns an error exactly when [RunCommand] does, and a
    result otherwise. *)
Theorem runCmd_panics_iff_empty (parts : list string) :
  (runCmd spawn show TrimSpace parts = None ↔ parts = [])
  ∧ (∀ e, RunCommand spawn show parts = Some (None, Some e) →
       runCmd spawn show TrimSpace parts = Some (None, Some e))
  ∧ (∀ cmd, RunCommand spawn show parts = Some (Some cmd, None) →
       ∃ r, runCmd spawn show TrimSpace parts = Some (Some r, None)).
Proof.
  assert (Hres : ∀ cmd, ∃ r, shellResult TrimSpace cmd = Some r).
  { intros cmd. destruct (shellResult_cases cmd) as [-> | [(_ & _ & ->) | ->]];
      by eexists. }
  split; [| split].
  - destruct parts as [| name args]; [done |]. unfold runCmd.
    destruct (RunCommand_cases (name :: args))
      as [[? _] | [(cmd & -> & _) | (e & ->)]]; [done | | done].
    by destruct (Hres cmd) as [r ->].
  - intros e Hrun. unfold runCmd. by rewrite Hrun.
  - intros cmd Hrun. unfold runCmd. rewrite Hrun.
    destruct (Hres cmd) as [r ->]. by eexists.
Qed.

(** X4.  A child that ran and ended with a status other than 0 is no
    error for [runCmd]: it returns a result and a nil error, the result
    reports a change as for any other process that ran, and carries [rc]
    1; with status 0 it carries [rc] 0. *)
Theorem runCmd_nonzero_exit_is_a_result (name : string) (args : list string)
    (status : Z) :
  let c := spawn None name args in
  stdout_pipe c = None → stderr_pipe c = None → child_end c = Exit status →
  ∃ r, runCmd spawn show TrimSpace (name :: args) = Some (Some r, None)
       ∧ Changed r = true
       ∧ Result_Get r "rc" = Some (VInt (if decide (status = 0) then 0 else 1))
       ∧ Result_Get r "stdout" =
           Some (VStr (TrimSpace (read_lines "" (child_stdout c))))
       ∧ Result_Get r "stderr" =
           Some (VStr (TrimSpace (read_lines "" (child_stderr c)))).
Proof.
  intros c Hout Herr Hend.
  pose proof (RunCommand_shape name args) as Hshape. fold c in Hshape.
  rewrite (BuiltinFacts.captureCmd_exit show c status Hout Herr Hend) in Hshape.
  unfold runCmd.
  destruct (decide (status = 0)); rewrite Hshape;
    match goal with
    | |- context [shellResult TrimSpace ?cmd] =>
        destruct (shellResult_cases cmd) as [-> | [(_ & _ & ->) | ->]]
    end; eexists; (split; [reflexivity |]); by repeat split.
Qed.

Lemma no_newline_append (s1 s2 : string) :
  newline ∉ list_ascii_of_string (s1 ++ s2) ↔
    (newline ∉ list_ascii_of_string s1) ∧ (newline ∉ list_ascii_of_string s2).
Proof. by rewrite chars_append, not_elem_of_app. Qed.

Lemma no_newline_cons (c : ascii) (s : string) :
  newline ∉ list_ascii_of_string (String c s) ↔
    newline ≠ c ∧ (newline ∉ list_ascii_of_string s).
Proof. simpl. by rewrite not_elem_of_cons. Qed.

Lemma Replace_newlines_chars (s : string) :
  (newline ∉ list_ascii_of_string (Replace_newlines s))
  ∧ String.length (Replace_newlines s) = String.length s.
Proof.
  induction s as [| c s [IHnl IHlen]]; simpl; [split; [set_solver | done] |].
  split; [| by rewrite IHlen].
  apply not_elem_of_cons. split; [| done].
  destruct (decide (c = newline)); [done | congruence].
Qed.

(** X5.  The summary [runCmd] stores under [_result], when it stores
    one, is compact: it holds no newline and is at most 76 bytes long. *)
Theorem summary_is_one_short_line (parts : list string) (r : Result)
    (summary : string) :
  runCmd spawn show TrimSpace parts = Some (Some r, None) →
  Result_Get r "_result" = Some (VStr summary) →
  (newline ∉ list_ascii_of_string summary)
  ∧ (String.length summary ≤ 76)%nat.
Proof.
  unfold runCmd. intros Hrun Hsum.
  destruct (RunCommand_cases parts)
    as [[_ Hnone] | [(cmd & Hcmd & Hrc) | (e & He)]];
    [by rewrite Hnone in Hrun | | by rewrite He in Hrun].
  rewrite Hcmd in Hrun.
  destruct (shellResult_cases cmd) as [Hres | [(_ & Hlen & Hres) | Hres]];
    rewrite Hres in Hrun; injection Hrun as <-.
  - rewrite BuiltinFacts.Result_Get_Add in Hsum. injection Hsum as <-.
    split; [set_solver | simpl; lia].
  - rewrite BuiltinFacts.Result_Get_Add in Hsum. injection Hsum as <-.
    destruct (Replace_newlines_chars (TrimSpace (Stdout cmd))) as [Hnl Hsame].
    assert (Hit : itoa (ReturnCode cmd) = "0" ∨ itoa (ReturnCode cmd) = "1")
      by (destruct Hrc as [-> | ->]; [by left | by right]).
    split.
    + rewrite !no_newline_append.
      split; [by apply (bool_decide_unpack _) |].
      split; [destruct Hit as [-> | ->]; by apply (bool_decide_unpack _) |].
      split; [by apply (bool_decide_unpack _) |].
      apply no_newline_cons. split; [done |].
      apply no_newline_append. split; [done |].
      by apply (bool_decide_unpack _).
    + rewrite !length_append. cbn [String.length].
      rewrite length_append, Hsame. cbn [String.length].
      destruct Hit as [-> | ->]; cbn [String.length]; lia.
  - by rewrite BuiltinFacts.shellFields_no_summary in Hsum.
Qed.

(** *** The three commands *)

(** X6.  [ShellCmd.Run] never panics, whatever the command text.
    [CommandCmd.Run] returns the error of [shlex.Split] without starting
    anything, and panics exactly when the text splits, without error,
    into no word at all. *)
Theorem command_and_shell (Command : string) :
  ShellCmd_Run spawn show TrimSpace Command ≠ None
  ∧ (∀ e, (Split Command).2 = Some e →
       CommandCmd_Run spawn show TrimSpace Split Command = Some (None, Some e))
  ∧ (CommandCmd_Run spawn show TrimSpace Split Command = None
     ↔ Split Command = ([], None)).
Proof.
  split; [| split].
  - unfold ShellCmd_Run. intros Hnone.
    by apply runCmd_panics_iff_empty in Hnone.
  - unfold CommandCmd_Run. destruct (Split Command) as [parts err]. simpl.
    by intros e ->.
  - unfold CommandCmd_Run. destruct (Split Command) as [parts [e |]].
    + split; [done | by intros [= _ ?]].
    + rewrite (proj1 (runCmd_panics_iff_empty parts)).
      split; [by intros -> | by intros [= ->]].
Qed.

(** X7.  [ScriptCmd.Run] panics exactly when the text splits into no
    word and either the split reported no error or the file named by the
    whole text exists.  When the file looked up is missing, the error of
    [os.Stat] is returned and nothing is started; otherwise [sh] is
    started on the path of the file, followed by the words after the
    first. *)
Theorem script_run (Script : string) :
  let parts := (Split Script).1 in
  let err := (Split Script).2 in
  (ScriptCmd_Run spawn show TrimSpace Split File Stat Script = None
   ↔ parts = [] ∧ (err = None ∨ Stat (File Script) = None))
  ∧ (∀ first rest, parts = first :: rest →
       let script := if err is None then first else Script in
       ScriptCmd_Run spawn show TrimSpace Split File Stat Script =
         match Stat (File script) with
         | Some e => Some (None, Some e)
         | None => runCmd spawn show TrimSpace ("sh" :: File script :: rest)
         end).
Proof.
  unfold ScriptCmd_Run. destruct (Split Script) as [parts [e |]]; simpl.
  - split.
    + destruct (Stat (File Script)) as [e' |].
      * split; [done | by intros [_ [? | ?]]].
      * destruct parts as [| first rest]; [by split; [| done]; eauto |].
        rewrite (proj1 (runCmd_panics_iff_empty _)).
        split; [done | by intros [? _]].
    + by intros first rest ->.
  - split.
    + destruct parts as [| first rest]; [by split; [| done]; eauto |].
      destruct (Stat (File first)) as [e' |]; [split; [done | by intros [? _]] |].
      rewrite (proj1 (runCmd_panics_iff_empty _)).
      split; [done | by intros [? _]].
    + by intros first rest ->.
Qed.

End Exec.

(** *** The properties at work on the sample *)

(** Two lines and a rest without a newline: the lines are kept, the
    rest is not. *)
Lemma capture_by_lines_witness :
  let whole := foldr (λ l acc, l ++ String newline acc) "" ["a"; "bc"] in
  read_lines "" (whole ++ "d") = whole.
Proof.
  apply (capture_by_lines ["a"; "bc"] "d").
  - repeat constructor;
      solve [ apply (bool_decide_unpack _); vm_compute; exact I
            | apply Nat.ltb_lt; vm_compute; reflexivity ].
  - apply (bool_decide_unpack _). vm_compute. exact I.
Defined.

(** [exit] ends with status 3: a changed result with [rc] 1. *)
Lemma runCmd_nonzero_exit_is_a_result_witness :
  ∃ r,
    runCmd Sample.spawn false Sample.TrimSpace ["exit"] = Some (Some r, None)
    ∧ Changed r = true
    ∧ Result_Get r "rc" = Some (VInt 1).
Proof.
  destruct (runCmd_nonzero_exit_is_a_result Sample.spawn false
              Sample.TrimSpace "exit" [] 3 eq_refl eq_refl eq_refl)
    as (r & Hrun & Hchanged & Hrc & _).
  exists r. split; [exact Hrun |]. split; [exact Hchanged | exact Hrc].
Defined.

(** [printf] of one short line: the summary has no newline. *)
Lemma summary_is_one_short_line_witness :
  ∃ r summary,
    runCmd Sample.spawn false Sample.TrimSpace ["printf"; "hi" ++ Sample.nl]
      = Some (Some r, None)
    ∧ Result_Get r "_result" = Some (VStr summary)
    ∧ (newline ∉ list_ascii_of_string summary)
    ∧ (String.length summary ≤ 76)%nat.
Proof.
  assert (Hrun : ∃ r,
    runCmd Sample.spawn false Sample.TrimSpace ["printf"; "hi" ++ Sample.nl]
      = Some (Some r, None)
    ∧ ∃ summary, Result_Get r "_result" = Some (VStr summary)).
  { eexists. split; [vm_compute; reflexivity |].
    eexists. vm_compute. reflexivity. }
  destruct Hrun as (r & Hrun & summary & Hsummary).
  exists r, summary. split; [exact Hrun |]. split; [exact Hsummary |].
  exact (summary_is_one_short_line Sample.spawn false Sample.TrimSpace
           _ r summary Hrun Hsummary).
Defined.

End BuiltinMore.

(** ** runner.go: what a run keeps and what it leaves alone *)

Module RunnerMore.

Import Runner RunnerExtra RunnerFacts.

Local Open Scope list_scope.

Section Facts.

Context `{Collaborators Cmd World}.

Implicit Types (st : State Cmd World) (task : Task) (play : Play).
Implicit Types (s : Scope) (fs : FutureScopePtr) (err : error).

(** *** A relation kept by every step is kept by [runTask] *)

Section Invariant.

Context (R : relation (State Cmd World)) `{!Kept R}.

Lemma Builtin_Run_kept (c : Cmd) task str st out st' :
  Builtin_Run c task str st = Ret out st' → R st st'.
Proof.
  rewrite Builtin_Run_Ret. intros [= _ <-].
  by apply (Kept_world (Cmd_Run c task str (world st)).2 st).
Qed.

Lemma sub_execution_kept task s fs item st st' :
  sub_execution task s fs item st st' → R st st'.
Proof.
  intros [name str c st1 out st2 _ Hrep Hrun Hdone].
  apply complete_Ret in Hdone as ->.
  etrans; [by eapply Kept_start |].
  etrans; [by eapply Builtin_Run_kept | apply Kept_completed].
Qed.

Lemma sub_executions_kept task s fs items st st' :
  sub_executions task s fs items st st' → R st st'.
Proof.
  induction 1 as [st | item rest st st1 st' Hsub _ IH]; [done |].
  etrans; [by eapply sub_execution_kept | exact IH].
Qed.

Lemma runTaskItems_kept play task s fs items st e st' :
  runTaskItems play task s fs items st = Ret e st' → R st st'.
Proof.
  intros Hrun. apply runTaskItems_spec in Hrun. destruct e as [err |].
  - destruct Hrun as (done & _ & _ & _ & Hdone & _).
    by eapply sub_executions_kept.
  - by eapply sub_executions_kept.
Qed.

Section Step.

Variable rec : Play → Task → Scope → FutureScopePtr → M Cmd World (option error).

Hypothesis rec_kept : ∀ play task s fs st e st',
  rec play task s fs st = Ret e st' → R st st'.

Lemma ModuleRun_loop_kept m args tasks st out st' :
  ModuleRun_loop rec m args tasks st = Ret out st' → R st st'.
Proof.
  revert st. induction tasks as [| task tasks IH]; intros st;
    cbn [ModuleRun_loop].
  - by intros [= _ <-].
  - intros Hrun.
    apply bind_Ret in Hrun as (sm & ? & [-> ->]%reading_Ret & Hrun).
    destruct (ParseSimpleMap _ args) as [sm | err];
      [| by injection Hrun as _ <-].
    apply bind_Ret in Hrun as (e & st1 & Hsub & Hrun).
    etrans; [by eapply rec_kept | by apply IH].
Qed.

Lemma Command_Run_kept cmd task str st out st' :
  Command_Run rec cmd task str st = Ret out st' → R st st'.
Proof.
  destruct cmd as [c | m]; simpl.
  - apply Builtin_Run_kept.
  - apply ModuleRun_loop_kept.
Qed.

Lemma runTask_body_kept play task s fs st e st' :
  runTask_body rec play task s fs st = Ret e st' → R st st'.
Proof.
  unfold runTask_body. intros Hrun.
  apply orReturn_Ret in Hrun as (go & st1 & Hgate & Hrun).
  apply whenGate_state in Hgate as ->.
  destruct go as [[] | err];
    [| by injection Hrun as _ <- | by destruct Hrun as [_ ->]].
  destruct (Task.Items task) as [items |]; [by eapply runTaskItems_kept |].
  apply orReturn_Ret in Hrun as (rn & ? & [-> ->]%reading_Ret & Hrun).
  destruct (ExpandVars _ (Task.Name task)) as [name | err];
    [| by destruct Hrun as [_ ->]].
  apply orReturn_Ret in Hrun as (ra & ? & [-> ->]%reading_Ret & Hrun).
  destruct (ExpandVars _ (Task.Args task)) as [str | err];
    [| by destruct Hrun as [_ ->]].
  apply orReturn_Ret in Hrun as (rc & st1 & Hcmd & Hrun).
  apply resolveCommand_state in Hcmd as ->.
  destruct rc as [cmd | err]; [| by destruct Hrun as [_ ->]].
  apply bind_Ret in Hrun as ([] & st1 & Hrep & Hrun).
  etrans; [by eapply Kept_start |].
  destruct (decide (Task.Future task = "")).
  - destruct (Task.Async task).
    + apply bind_Ret in Hrun as ([] & st2 & Hlaunch & [= _ <-]).
      by eapply Kept_launch.
    + apply bind_Ret in Hrun as (out & st2 & Hcrun & Hrun).
      apply bind_Ret in Hrun as ([] & st3 & Hdone & [= _ <-]).
      apply complete_Ret in Hdone as ->.
      etrans; [by eapply Command_Run_kept | apply Kept_completed].
  - destruct fs; [| done].
    apply bind_Ret in Hrun as ([] & st2 & Hfut & [= _ <-]).
    by eapply Kept_future.
Qed.

End Step.

Lemma runTask_kept fuel play task s fs st e st' :
  runTask fuel play task s fs st = Ret e st' → R st st'.
Proof.
  revert play task s fs st e st'. induction fuel as [| fuel IH];
    intros play task s fs st e st'; simpl; [done |].
  by apply runTask_body_kept.
Qed.

Lemma runTasks_kept fuel play tasks st e st' :
  runTasks fuel play tasks st = Ret e st' → R st st'.
Proof.
  revert st. induction tasks as [| task tasks IH]; intros st; simpl.
  - by intros [= _ <-].
  - intros Hrun. apply bind_Ret in Hrun as (err & st1 & Htask & Hrun).
    apply runTask_kept in Htask.
    destruct err; [by injection Hrun as _ <- |].
    etrans; [exact Htask | by apply IH].
Qed.

Lemma runHandlers_kept fuel play tasks st e st' :
  runHandlers fuel play tasks st = Ret e st' → R st st'.
Proof.
  revert st. induction tasks as [| task tasks IH]; intros st.
  - by intros [= _ <-].
  - rewrite runHandlers_cons.
    destruct (bool_decide _); [| apply IH].
    intros Hrun. apply bind_Ret in Hrun as (err & st1 & Htask & Hrun).
    apply runTask_kept in Htask.
    destruct err; [by injection Hrun as _ <- |].
    etrans; [exact Htask | by apply IH].
Qed.

End Invariant.

(** *** Nothing is taken back *)

Lemma extends_step (st st' : State Cmd World) rs evs acts :
  Results st' = Results st ++ rs →
  reported st' = reported st ++ evs →
  spawned st' = spawned st ++ acts →
  to_notify st ⊆ to_notify st' →
  extends st st'.
Proof.
  intros Hres Hrep Hsp Hnot.
  repeat split; [rewrite Hres | rewrite Hrep | rewrite Hsp | done];
    by apply prefix_app_r.
Qed.

#[local] Instance extends_kept : Kept (@extends Cmd World).
Proof.
  split.
  - split.
    + by intros st.
    + intros st1 st2 st3 (? & ? & ? & ?) (? & ? & ? & ?).
      repeat split; by etrans.
  - intros t cmd name str st0 st1 [= <-].
    by apply (extends_step _ _ [] [StartTask t cmd name str] []);
      simpl; rewrite ?(right_id_L [] (++)).
  - intros w st0 st1 [= <-].
    by apply (extends_step _ _ [] [] []); simpl; rewrite ?(right_id_L [] (++)).
  - intros a st0 st1 [= <-].
    by apply (extends_step _ _ [] [] [a]); simpl; rewrite ?(right_id_L [] (++)).
  - intros key f st0 st1 [= <-].
    by apply (extends_step _ _ [] [] []); simpl; rewrite ?(right_id_L [] (++)).
  - intros t cmd out st0.
    apply (extends_step _ _ [mkRunResult t (recorded out)]
             [FinishTask t cmd (recorded out)] []);
      [done | done | by rewrite (right_id_L [] (++)) | apply completed_mono].
Qed.

(** X8.  Nothing that [runTask] has recorded is taken back.  Across a
    call that returns, whatever its task, its scope and the depth of its
    module calls, the result history, the reporter's log and the list of
    launched actions have only grown at their end, every earlier entry
    staying where it was, and no name has left the notify set. *)
Theorem history_is_append_only (fuel : nat) play task s fs st e st' :
  runTask fuel play task s fs st = Ret e st' → extends st st'.
Proof. apply (runTask_kept extends). Qed.

(** X9.  The same holds across the two loops of [Run] over the plays:
    the task phase, which also appends the results of the futures of
    each play, and the handler phase. *)
Theorem phases_are_append_only (fuel : nat) plays st e st' :
  taskPhase fuel plays st = Ret e st' ∨ handlerPhase fuel plays st = Ret e st' →
  extends st st'.
Proof.
  intros [Hrun | Hrun].
  - revert st Hrun. induction plays as [| play plays IH]; intros st.
    + by intros [= _ <-].
    + simpl. intros Hrun.
      apply bind_Ret in Hrun as ([] & st1 & [= <-] & Hrun).
      apply bind_Ret in Hrun as (err & st2 & Hts & Hrun).
      apply (runTasks_kept extends) in Hts.
      destruct err; [by injection Hrun as _ <- |].
      apply bind_Ret in Hrun as ([] & st3 & [= <-] & Hrun).
      apply IH in Hrun.
      etrans; [exact Hts |]. etrans; [| exact Hrun].
      by apply (extends_step _ _ (FutureScope_Results st2) [] []);
        simpl; rewrite ?(right_id_L [] (++)).
  - revert st Hrun. induction plays as [| play plays IH]; intros st.
    + by intros [= _ <-].
    + simpl. intros Hrun.
      apply bind_Ret in Hrun as ([] & st1 & [= <-] & Hrun).
      apply bind_Ret in Hrun as (err & st2 & Hhs & Hrun).
      apply (runHandlers_kept extends) in Hhs.
      destruct err; [by injection Hrun as _ <- |].
      apply bind_Ret in Hrun as ([] & st3 & [= <-] & Hrun).
      apply IH in Hrun.
      etrans; [exact Hhs |]. etrans; [| exact Hrun].
      by apply (extends_step _ _ [] [] []); simpl; rewrite ?(right_id_L [] (++)).
Qed.

(** *** The reporter and the history agree *)

Lemma finished_app (evs1 evs2 : list (Event Cmd)) :
  finished (evs1 ++ evs2) = finished evs1 ++ finished evs2.
Proof. apply omap_app. Qed.

#[local] Instance in_step_kept : Kept (@in_step Cmd World).
Proof.
  split.
  - split.
    + intros st. exists []. simpl. by rewrite !(right_id_L [] (++)).
    + intros st1 st2 st3 (evs1 & Hrep1 & Hres1 & Hev1)
        (evs2 & Hrep2 & Hres2 & Hev2).
      exists (evs1 ++ evs2).
      rewrite Hrep2, Hrep1, Hres2, Hres1, finished_app, !(assoc_L (++)).
      repeat split. by apply Forall_app.
  - intros t cmd name str st0 st1 [= <-].
    exists [StartTask t cmd name str]. simpl.
    rewrite (right_id_L [] (++)). repeat split. by repeat constructor.
  - intros w st0 st1 [= <-]. exists []. simpl.
    by rewrite !(right_id_L [] (++)).
  - intros a st0 st1 [= <-]. exists []. simpl.
    by rewrite !(right_id_L [] (++)).
  - intros key f st0 st1 [= <-]. exists []. simpl.
    by rewrite !(right_id_L [] (++)).
  - intros t cmd out st0. exists [FinishTask t cmd (recorded out)].
    repeat split. by repeat constructor.
Qed.

(** X10.  The history and the reporter agree.  Across a call of
    [runTask] that returns, the reporter hears of starts and ends of
    tasks only, and the results added to the history are exactly those
    it was told of with [FinishTask], with the same tasks and in the same
    order; this holds through item loops and module calls. *)
Theorem reporter_hears_every_result (fuel : nat) play task s fs st e st' :
  runTask fuel play task s fs st = Ret e st' →
  ∃ evs,
    reported st' = reported st ++ evs
    ∧ Results st' = Results st ++ finished evs
    ∧ Forall (λ ev, task_event ev = true) evs.
Proof. apply (runTask_kept in_step). Qed.

(** *** Errors of [runTask] *)

Lemma whenGate_error task s st err st' :
  whenGate task s st = Ret (inr err) st' →
  Task.When task ≠ ""
  ∧ ExpandVars (PriorityScope (Task.IncludeVars task) s (scope st))
      (Task.When task) = inr err.
Proof.
  unfold whenGate. destruct (decide (Task.When task = "")); [done |].
  intros Hrun.
  apply bind_Ret in Hrun as (w & ? & [-> ->]%reading_Ret & Hrun).
  destruct (ExpandVars _ (Task.When task)); [done |].
  by injection Hrun as -> _.
Qed.

Lemma resolveCommand_error play task s str st err st' :
  resolveCommand play task s str st = Ret (inr err) st' →
  Modules play !! Task.Command task = None
  ∧ MakeCommand (PriorityScope (Task.IncludeVars task) s (scope st)) task str
    = inr err.
Proof.
  unfold resolveCommand. destruct (Modules play !! Task.Command task);
    [done |].
  intros Hrun.
  apply bind_Ret in Hrun as (c & ? & [-> ->]%reading_Ret & Hrun).
  destruct (MakeCommand _ task str); [done |].
  by injection Hrun as -> _.
Qed.

(** X11.  An error returned by [runTask] for a task without items is
    never the error of a command, and comes before anything is done: the
    state is the one the call started in, with nothing reported, run or
    recorded, and the error is that of expanding [When], the name or the
    arguments, or that of looking up a command that is no module of the
    play. *)
Theorem error_means_nothing_ran (fuel : nat) play task s fs st err st' :
  Task.Items task = None →
  runTask fuel play task s fs st = Ret (Some err) st' →
  let ps := PriorityScope (Task.IncludeVars task) s (scope st) in
  st' = st
  ∧ ((Task.When task ≠ "" ∧ ExpandVars ps (Task.When task) = inr err)
     ∨ ExpandVars ps (Task.Name task) = inr err
     ∨ ExpandVars ps (Task.Args task) = inr err
     ∨ ∃ str, ExpandVars ps (Task.Args task) = inl str
          ∧ Modules play !! Task.Command task = None
          ∧ MakeCommand ps task str = inr err).
Proof.
  intros Hitems. destruct fuel as [| fuel]; [done |]. simpl.
  unfold runTask_body. rewrite Hitems. intros Hrun.
  apply orReturn_Ret in Hrun as (go & st1 & Hgate & Hrun).
  pose proof (whenGate_state _ _ _ _ _ Hgate) as ->.
  destruct go as [[] | err1]; [| done |].
  2: { destruct Hrun as [[= <-] ->]. apply whenGate_error in Hgate.
       split; [done | by left]. }
  apply orReturn_Ret in Hrun as (rn & ? & [-> ->]%reading_Ret & Hrun).
  destruct (ExpandVars _ (Task.Name task)) as [name | err1] eqn:Hname.
  2: { destruct Hrun as [[= <-] ->]. split; [done | by right; left]. }
  apply orReturn_Ret in Hrun as (ra & ? & [-> ->]%reading_Ret & Hrun).
  destruct (ExpandVars _ (Task.Args task)) as [str | err1] eqn:Hstr.
  2: { destruct Hrun as [[= <-] ->]. split; [done | by right; right; left]. }
  apply orReturn_Ret in Hrun as (rc & st1 & Hcmd & Hrun).
  pose proof (resolveCommand_state _ _ _ _ _ _ _ Hcmd) as ->.
  destruct rc as [cmd | err1].
  2: { destruct Hrun as [[= <-] ->]. apply resolveCommand_error in Hcmd.
       split; [done |]. right; right; right. by exists str. }
  apply bind_Ret in Hrun as ([] & st1 & _ & Hrun).
  destruct (decide (Task.Future task = "")).
  - destruct (Task.Async task).
    + by apply bind_Ret in Hrun as ([] & st2 & _ & [=]).
    + apply bind_Ret in Hrun as (out & st2 & _ & Hrun).
      by apply bind_Ret in Hrun as ([] & st3 & _ & [=]).
  - by apply bind_Ret in Hrun as ([] & st2 & _ & [=]).
Qed.

(** *** Handlers that nobody notified *)

Lemma runHandlers_skipped fuel play hs st :
  Forall (λ h, Task.Name h ∉ to_notify st) hs →
  runHandlers fuel play hs st = Ret None st.
Proof.
  induction 1 as [| h hs Hh _ IH]; [done |].
  by rewrite runHandlers_cons, bool_decide_eq_false_2.
Qed.

(** X12.  When no handler of any play has been notified, the handler
    phase runs nothing, whatever the fuel: it returns without an error,
    and the history, the reporter's log, the launched actions and the
    notify set are what they were. *)
Theorem no_notification_no_handler (fuel : nat) plays st :
  (∀ play h, play ∈ plays → h ∈ Handlers play → Task.Name h ∉ to_notify st) →
  ∃ st',
    handlerPhase fuel plays st = Ret None st'
    ∧ Results st' = Results st
    ∧ reported st' = reported st
    ∧ spawned st' = spawned st
    ∧ to_notify st' = to_notify st.
Proof.
  revert st. induction plays as [| play plays IH]; intros st Hnone.
  - by exists st.
  - cbn [handlerPhase].
    unfold mbind at 1. unfold M_bind at 1. unfold setScope at 1.
    unfold mbind at 1. unfold M_bind at 1.
    rewrite runHandlers_skipped.
    2: { apply Forall_forall. intros h Hh. simpl.
         apply (Hnone play h); [apply list_elem_of_here | done]. }
    unfold mbind at 1. unfold M_bind at 1. unfold setWorld at 1.
    match goal with
    | |- ∃ st', handlerPhase _ _ ?st1 = _ ∧ _ =>
        destruct (IH st1) as (st' & Hrun & Hres & Hrep & Hsp & Hnot)
    end.
    { intros p h Hp Hh. simpl.
      apply (Hnone p h); [by apply list_elem_of_further | done]. }
    exists st'. by rewrite Hrun.
Qed.

(** *** Item loops and the play *)

Lemma bind_ext {A B} (m : M Cmd World A) (f g : A → M Cmd World B) st :
  (∀ a st1, f a st1 = g a st1) → (m ≫= f) st = (m ≫= g) st.
Proof.
  intros Hfg. unfold mbind, M_bind. by destruct (m st).
Qed.

Lemma orReturn_ext {A} (m : M Cmd World (A + error)) f g st :
  (∀ a st1, f a st1 = g a st1) → orReturn m f st = orReturn m g st.
Proof.
  intros Hfg. unfold orReturn. apply bind_ext. by intros [a | err] st1.
Qed.

Lemma runTaskItems_any_play play play' task s fs items st :
  runTaskItems play task s fs items st = runTaskItems play' task s fs items st.
Proof.
  revert st. induction items as [| item items IH]; intros st; [done |].
  cbn [runTaskItems].
  apply orReturn_ext. intros name st1.
  apply orReturn_ext. intros str st2.
  apply orReturn_ext. intros cmd st3.
  apply bind_ext. intros [] st4.
  apply bind_ext. intros out st5.
  apply bind_ext. intros [] st6.
  apply IH.
Qed.

(** X13.  A task with items never runs a module.  Whatever the play
    and its modules, also when the command of the task is the name of one
    of them, [runTask] does the same: every item goes to the registered
    command that [MakeCommand] finds. *)
Theorem items_never_run_a_module (fuel : nat) play play' task s fs st :
  Task.Items task ≠ None →
  runTask fuel play task s fs st = runTask fuel play' task s fs st.
Proof.
  intros Hitems. destruct fuel as [| fuel]; [done |]. simpl.
  unfold runTask_body. apply orReturn_ext. intros [] st1; [| done].
  destruct (Task.Items task) as [items |]; [| done].
  apply runTaskItems_any_play.
Qed.

(** *** Writing through a priority scope *)

(** X14.  A write through a priority scope goes to the scope it wraps
    and never to the variables of the task: read back through the same
    priority scope, the key gives the task's own variable if there is
    one, and the written value only otherwise; every other key reads as
    before. *)
Theorem priority_scope_set_then_get (vars : option (gmap string Binding))
    (rest : Scope) (fsv : FutureScope Cmd) (key : string) (val : Binding) :
  let after := PriorityScope_Set vars rest fsv key val in
  PriorityScope vars after.1 after.2 key =
    Some (default val (vars ≫= (.!! key)))
  ∧ ∀ k, k ≠ key →
      PriorityScope vars after.1 after.2 k = PriorityScope vars rest fsv k.
Proof.
  assert (Hkey : Scope_Get (Scope_Set rest fsv key val).1
                   (Scope_Set rest fsv key val).2 key = Some val).
  { destruct rest as [| frame parent]; simpl.
    - unfold FutureScope_Get. simpl. by rewrite lookup_insert_eq.
    - by rewrite lookup_insert_eq. }
  assert (Hother : ∀ k, k ≠ key →
            Scope_Get (Scope_Set rest fsv key val).1
              (Scope_Set rest fsv key val).2 k = Scope_Get rest fsv k).
  { intros k Hk. destruct rest as [| frame parent]; simpl.
    - unfold FutureScope_Get. simpl. by rewrite lookup_insert_ne.
    - by rewrite lookup_insert_ne. }
  unfold PriorityScope, PriorityScope_Set, PriorityScope_Get. simpl. split.
  - destruct vars as [vars |]; simpl; [| done].
    by destruct (vars !! key).
  - intros k Hk. rewrite (Hother k Hk). done.
Qed.

(** *** The last item of a loop *)

Lemma sub_executions_snoc task s fs items item st st' :
  sub_executions task s fs (items ++ [item]) st st' →
  ∃ st1, sub_executions task s fs items st st1
         ∧ sub_execution task s fs item st1 st'.
Proof.
  revert st. induction items as [| i items IH]; intros st; simpl.
  - inversion 1 as [| ? ? ? st1 ? Hsub Hrest]; subst.
    inversion Hrest; subst. exists st. split; [constructor | done].
  - inversion 1 as [| ? ? ? st1 ? Hsub Hrest]; subst.
    apply IH in Hrest as (st2 & Hitems & Hlast).
    exists st2. split; [by econstructor | done].
Qed.

(** X15.  A loop over items that registers its result keeps the last
    one.  After the loop has gone through all the items, the name in
    [Register] is bound, in the future scope of the play, to the result
    that the command of the last item returned, as it was returned. *)
Theorem register_keeps_last_item (fuel : nat) play task s st items item st' :
  Task.Register task ≠ "" →
  Task.Items task = Some (items ++ [item]) →
  whenGate task s st = Ret (inl true) st →
  runTask (S fuel) play task s ThePlay st = Ret None st' →
  ∃ st1 name str c,
    sub_executions task s ThePlay items st st1
    ∧ item_ready task s st1 item name str c
    ∧ FutureScope_Get (scope st') (Task.Register task) =
        Some (BResult (Cmd_Run c task str (world st1)).1.1).
Proof.
  intros Hreg Hitems Hgate Hrun.
  rewrite (runTask_items _ _ _ _ _ _ _ Hgate Hitems) in Hrun.
  apply runTaskItems_spec in Hrun.
  apply sub_executions_snoc in Hrun as (st1 & Hdone & Hlast).
  destruct Hlast as [name str c st2 out st3 Hready Hrep Hrun Hcomp].
  exists st1, name, str, c. split; [done |]. split; [done |].
  apply complete_Ret in Hcomp as ->. rewrite Builtin_Run_Ret in Hrun.
  injection Hrun as <- <-. injection Hrep as <-.
  unfold completed, FutureScope_Get. simpl.
  rewrite decide_False by done. simpl. by rewrite lookup_insert_eq.
Qed.

(** *** What a task reports around what it runs *)

(** X16.  The events of a task are bracketed.  When a call of
    [runTask] for a task that reaches its command and runs it in line
    returns, it returns nil and has reported the start of the task first
    and its end last; in between lie the events of the tasks of the
    module it called, if it called one, and none at all for a registered
    command.  The history has grown the same way: the results of the
    module's tasks first, then the task's own.  Nothing is said of a
    call that does not return. *)
Theorem task_events_are_bracketed (fuel : nat) play task s fs st name str cmd
    e st' :
  ready play task s st name str cmd →
  Task.Future task = "" → Task.Async task = false →
  runTask (S fuel) play task s fs st = Ret e st' →
  ∃ evs res,
    e = None
    ∧ reported st' =
        reported st ++ [StartTask task cmd name str] ++ evs
          ++ [FinishTask task cmd res]
    ∧ Results st' = Results st ++ finished evs ++ [mkRunResult task res]
    ∧ Forall (λ ev, task_event ev = true) evs
    ∧ (∀ c, cmd = Builtin c → evs = []).
Proof.
  intros Hready Hfut Hasync Hrun.
  rewrite (runTask_dispatch _ _ _ _ _ _ _ _ _ Hready) in Hrun.
  rewrite decide_True, Hasync in Hrun by done.
  apply bind_Ret in Hrun as ([] & st1 & [= <-] & Hrun).
  apply bind_Ret in Hrun as (out & st2 & Hcmd & Hrun).
  apply bind_Ret in Hrun as ([] & st3 & Hdone & [= <- <-]).
  apply complete_Ret in Hdone as ->.
  pose proof (Command_Run_kept in_step (runTask fuel)
                (runTask_kept in_step fuel) _ _ _ _ _ _ Hcmd)
    as (evs & Hrep & Hres & Hev).
  simpl in Hrep, Hres.
  exists evs, (recorded out). split; [done |].
  unfold completed. simpl. rewrite Hrep, Hres.
  split; [by rewrite <- !(assoc_L (++)) |].
  split; [by rewrite (assoc_L (++)) |]. split; [done |].
  intros c ->. simpl in Hcmd. rewrite Builtin_Run_Ret in Hcmd.
  injection Hcmd as _ <-. simpl in Hrep.
  apply (inj (app (reported st ++ [StartTask task (Builtin c) name str]))).
  by rewrite (right_id_L [] (++)).
Qed.

(** *** Tasks of a module and the future scope *)

(** X17.  A task of a module can neither name a future nor register
    the result of a registered command: [ModuleRun.Run] hands its tasks
    a nil future scope, and the write through it panics as soon as such a
    task has been prepared, or has run its command. *)
Theorem module_task_cannot_register (fuel : nat) (m : ModuleRun) args task
    rest st sm name str c :
  ParseSimpleMap (Scope_Get (NewNestedScope (m_Scope m)) (scope st)) args
    = inl sm →
  ready (m_Play m) task
    (map_fold NestedScope_Set (NewNestedScope (m_Scope m)) sm) st name str
    (Builtin c) →
  Task.Future task ≠ ""
  ∨ (Task.Async task = false ∧ Task.Register task ≠ "") →
  ModuleRun_loop (runTask (S fuel)) m args (task :: rest) st = Panic.
Proof.
  intros Hparse Hready Hwrite. cbn [ModuleRun_loop].
  unfold mbind at 1. unfold M_bind at 1. unfold reading at 1.
  rewrite Hparse.
  unfold mbind at 1. unfold M_bind at 1.
  rewrite (runTask_dispatch _ _ _ _ _ _ _ _ _ Hready).
  unfold mbind at 1. unfold M_bind at 1. unfold report at 1.
  destruct (decide (Task.Future task = "")) as [Hfut | Hfut]; [| done].
  destruct Hwrite as [? | [Hasync Hreg]]; [done |]. rewrite Hasync.
  unfold mbind at 1. unfold M_bind at 1. cbn [Command_Run].
  rewrite Builtin_Run_Ret.
  unfold mbind at 1. unfold M_bind at 1.
  by rewrite complete_Nil.
Qed.

(** *** A run that stops in the task phase *)

Lemma taskPhase_reports fuel plays st e st' :
  taskPhase fuel plays st = Ret e st' →
  ∃ evs, reported st' = reported st ++ evs
         ∧ Forall (λ ev, task_event ev = true) evs.
Proof.
  revert st. induction plays as [| play plays IH]; intros st.
  - intros [= _ <-]. exists []. by rewrite (right_id_L [] (++)).
  - simpl. intros Hrun.
    apply bind_Ret in Hrun as ([] & st1 & [= <-] & Hrun).
    apply bind_Ret in Hrun as (err & st2 & Hts & Hrun).
    apply (runTasks_kept in_step) in Hts as (evs & Hrep & _ & Hev).
    simpl in Hrep.
    destruct err; [injection Hrun as _ <-; by exists evs |].
    apply bind_Ret in Hrun as ([] & st3 & [= <-] & Hrun).
    apply IH in Hrun as (evs' & Hrep' & Hev'). simpl in Hrep'.
    exists (evs ++ evs'). rewrite Hrep', Hrep, (assoc_L (++)).
    split; [done | by apply Forall_app].
Qed.

(** X19.  A run that stops in the task phase goes no further.  When a
    task of the task phase returns an error, [Run] returns that error
    from the state the task left: the reporter has heard of the start of
    the tasks and of single tasks, and neither of the end of the tasks
    nor of any handler. *)
Theorem aborted_run_reports_only_tasks (fuel : nat) plays st st1 err st' :
  report StartTasks st = Ret () st1 →
  taskPhase fuel plays st1 = Ret (Some err) st' →
  Run fuel plays st = Ret (Some err) st'
  ∧ ∃ evs, reported st' = reported st ++ StartTasks :: evs
           ∧ Forall (λ ev, task_event ev = true) evs.
Proof.
  intros Hstart Hphase. split; [by eapply Run_abort |].
  apply taskPhase_reports in Hphase as (evs & Hrep & Hev).
  injection Hstart as <-. simpl in Hrep.
  exists evs. by rewrite Hrep, <- (assoc_L (++)).
Qed.

(** *** A module that calls itself *)

(** X24.  Nothing stops a module from calling itself.  A task that
    runs in line a module whose first task is that same task, and whose
    name and arguments always expand and parse, never returns: the depth
    of the calls of [runTask] has no bound, so that no amount of fuel
    lets the model return. *)
Theorem self_calling_module_never_returns play task md rest :
  Modules play !! Task.Command task = Some md →
  ModTasks md = task :: rest →
  Task.When task = "" → Task.Items task = None →
  Task.Future task = "" → Task.Async task = false →
  (∀ get, ∃ name, ExpandVars get (Task.Name task) = inl name) →
  (∀ get, ∃ str, ExpandVars get (Task.Args task) = inl str
                 ∧ ∀ get', ∃ sm, ParseSimpleMap get' str = inl sm) →
  ∀ (fuel : nat) s fs st, runTask fuel play task s fs st = OutOfFuel.
Proof.
  intros Hmod Htasks Hwhen Hitems Hfut Hasync Hname Hargs.
  induction fuel as [| fuel IH]; intros s fs st; [done |].
  destruct (Hname (PriorityScope (Task.IncludeVars task) s (scope st)))
    as [name Hn].
  destruct (Hargs (PriorityScope (Task.IncludeVars task) s (scope st)))
    as (str & Hs & Hparse).
  rewrite (runTask_dispatch _ _ _ _ _ _ name str
             (ModuleCmd (mkModuleRun play task md s))).
  2: { unfold ready. split; [| split; [done | split; [done | split; [done |]]]].
       - unfold whenGate. by rewrite decide_True.
       - unfold resolveCommand. by rewrite Hmod. }
  unfold mbind at 1. unfold M_bind at 1. unfold report at 1.
  rewrite decide_True, Hasync by done.
  unfold mbind at 1. unfold M_bind at 1.
  cbn [Command_Run]. unfold ModuleRun_Run. cbn [m_Module]. rewrite Htasks.
  cbn [ModuleRun_loop].
  unfold mbind at 1. unfold M_bind at 1. unfold reading at 1.
  match goal with
  | |- context [ParseSimpleMap ?get str] =>
      destruct (Hparse get) as [sm ->]
  end.
  unfold mbind at 1. unfold M_bind at 1. by rewrite IH.
Qed.

(** *** Who notifies *)

#[local] Instance notified_by_results_kept :
  Kept (@notified_by_results Cmd World).
Proof.
  assert (Hsame : ∀ st st' : State Cmd World,
    Results st' = Results st → to_notify st' = to_notify st →
    notified_by_results st st').
  { intros st st' Hres Hnot. exists [].
    rewrite (right_id_L [] (++)), Hnot. split; [done |]. by left. }
  split.
  - split.
    + intros st. by apply Hsame.
    + intros st1 st2 st3 (rs1 & Hres1 & Hnot1) (rs2 & Hres2 & Hnot2).
      exists (rs1 ++ rs2). rewrite Hres2, Hres1, (assoc_L (++)).
      split; [done |]. intros n Hn.
      destruct (Hnot2 n Hn) as [Hn2 | (r & Hr & Hnr)].
      * destruct (Hnot1 n Hn2) as [Hn1 | (r & Hr & Hnr)]; [by left |].
        right. exists r. split; [| done]. apply elem_of_app. by left.
      * right. exists r. split; [| done]. apply elem_of_app. by right.
  - intros t cmd name str st0 st1 [= <-]. by apply Hsame.
  - intros w st0 st1 [= <-]. by apply Hsame.
  - intros a st0 st1 [= <-]. by apply Hsame.
  - intros key f st0 st1 [= <-]. by apply Hsame.
  - intros t cmd out st0. exists [mkRunResult t (recorded out)].
    split; [done |]. unfold completed. simpl. intros n Hn.
    destruct out.2; [by left |].
    apply elem_of_union in Hn as [Hn | Hn]; [| by left].
    right. eexists. split; [apply list_elem_of_here |].
    simpl. by apply elem_of_list_to_set in Hn.
Qed.

(** X25.  Only a task whose result was recorded notifies.  Every name
    that a call of [runTask] adds to the notify set is in the [Notify]
    list of a task whose result the same call added to the history,
    through item loops and module calls alike; a task that was skipped,
    deferred or launched notifies nobody. *)
Theorem only_recorded_tasks_notify (fuel : nat) play task s fs st e st' :
  runTask fuel play task s fs st = Ret e st' →
  ∃ rs,
    Results st' = Results st ++ rs
    ∧ ∀ n, n ∈ to_notify st' →
        n ∈ to_notify st ∨ ∃ r, r ∈ rs ∧ n ∈ Task.Notify (r_Task r).
Proof. apply (runTask_kept notified_by_results). Qed.

End Facts.

(** *** The properties at work on the sample *)

Import Sample SampleRuns.

Ltac sample_run := eexists; vm_compute; reflexivity.

Ltac sample_ready := unfold ready; repeat split; vm_compute; reflexivity.

(** The task [unchanged] of the play [chained]. *)
Lemma history_is_append_only_witness :
  ∃ st',
    runTask 1 chained unchanged PlayScope ThePlay init = Ret None st'
    ∧ extends init st'.
Proof.
  assert (Hrun : ∃ st',
    runTask 1 chained unchanged PlayScope ThePlay init = Ret None st')
    by sample_run.
  destruct Hrun as [st' Hrun]. exists st'. split; [exact Hrun |].
  exact (history_is_append_only 1 chained unchanged PlayScope ThePlay init
           None st' Hrun).
Defined.

(** The task phase of [chained]. *)
Lemma phases_are_append_only_witness :
  ∃ st', taskPhase 1 [chained] init = Ret None st' ∧ extends init st'.
Proof.
  assert (Hrun : ∃ st', taskPhase 1 [chained] init = Ret None st')
    by sample_run.
  destruct Hrun as [st' Hrun]. exists st'. split; [exact Hrun |].
  exact (phases_are_append_only 1 [chained] init None st' (or_introl Hrun)).
Defined.

(** The task [use] calls the module of two steps. *)
Lemma reporter_hears_every_result_witness :
  ∃ st' evs,
    runTask 2 with_steps use PlayScope ThePlay init = Ret None st'
    ∧ reported st' = reported init ++ evs
    ∧ Results st' = Results init ++ finished evs.
Proof.
  assert (Hrun : ∃ st',
    runTask 2 with_steps use PlayScope ThePlay init = Ret None st')
    by sample_run.
  destruct Hrun as [st' Hrun].
  destruct (reporter_hears_every_result 2 with_steps use PlayScope ThePlay
              init None st' Hrun) as (evs & Hrep & Hres & _).
  exists st', evs. split; [exact Hrun |]. split; [exact Hrep | exact Hres].
Defined.

(** The command of [inner] is not a registered one. *)
Lemma error_means_nothing_ran_witness :
  ∃ err st',
    runTask 1 chained inner PlayScope ThePlay init = Ret (Some err) st'
    ∧ st' = init.
Proof.
  assert (Hrun : ∃ err st',
    runTask 1 chained inner PlayScope ThePlay init = Ret (Some err) st')
    by (eexists; sample_run).
  destruct Hrun as (err & st' & Hrun).
  exists err, st'. split; [exact Hrun |].
  exact (proj1 (error_means_nothing_ran 1 chained inner PlayScope ThePlay
                  init err st' eq_refl Hrun)).
Defined.

(** Nothing is notified at the start: the handlers of [chained] do not
    run, and no fuel is used. *)
Lemma no_notification_no_handler_witness :
  ∃ st',
    handlerPhase 0 [chained] init = Ret None st'
    ∧ Results st' = Results init
    ∧ reported st' = reported init.
Proof.
  destruct (no_notification_no_handler 0 [chained] init)
    as (st' & Hrun & Hres & Hrep & _).
  - intros p h _ _. apply not_elem_of_empty.
  - exists st'. split; [exact Hrun |]. split; [exact Hres | exact Hrep].
Defined.

(** A loop run in a play with a module and in one without. *)
Lemma items_never_run_a_module_witness :
  runTask 1 with_module (looped [BValue (VStr "a")]) PlayScope ThePlay init =
    runTask 1 chained (looped [BValue (VStr "a")]) PlayScope ThePlay init.
Proof.
  apply (items_never_run_a_module 1 with_module chained). discriminate.
Defined.

(** The loop [each_registered] over two items. *)
Lemma register_keeps_last_item_witness :
  ∃ st' st1 name str c,
    runTask 1 chained each_registered PlayScope ThePlay init = Ret None st'
    ∧ item_ready each_registered PlayScope st1 (BValue (VStr "b")) name str c
    ∧ FutureScope_Get (scope st') "out" =
        Some (BResult (Cmd_Run c each_registered str (world st1)).1.1).
Proof.
  assert (Hrun : ∃ st',
    runTask 1 chained each_registered PlayScope ThePlay init = Ret None st')
    by sample_run.
  destruct Hrun as [st' Hrun].
  destruct (register_keeps_last_item 0 chained each_registered PlayScope init
              [BValue (VStr "a")] (BValue (VStr "b")) st')
    as (st1 & name & str & c & _ & Hready & Hget).
  - discriminate.
  - reflexivity.
  - vm_compute. reflexivity.
  - exact Hrun.
  - exists st', st1, name, str, c.
    split; [exact Hrun |]. split; [exact Hready | exact Hget].
Defined.

(** The task [use] and the two steps of its module. *)
Lemma task_events_are_bracketed_witness :
  ∃ st' cmd evs res,
    runTask 2 with_steps use PlayScope ThePlay init = Ret None st'
    ∧ reported st' =
        reported init ++ [StartTask use cmd "use" "x"] ++ evs
          ++ [FinishTask use cmd res]
    ∧ Results st' = Results init ++ finished evs ++ [mkRunResult use res].
Proof.
  assert (Hrun : ∃ st',
    runTask 2 with_steps use PlayScope ThePlay init = Ret None st')
    by sample_run.
  destruct Hrun as [st' Hrun].
  edestruct (task_events_are_bracketed 1 with_steps use PlayScope ThePlay init
               "use" "x") as (evs & res & _ & Hrep & Hres & _).
  - sample_ready.
  - reflexivity.
  - reflexivity.
  - exact Hrun.
  - eexists st', _, evs, res.
    split; [exact Hrun |]. split; [exact Hrep | exact Hres].
Defined.

(** A module whose task names a future. *)
Lemma module_task_cannot_register_witness :
  ModuleRun_loop (runTask 1) m_later "x" [later_step] init = Panic.
Proof.
  apply (module_task_cannot_register 0 m_later "x" later_step [] init ∅
           "later" "s" "ok").
  - vm_compute. reflexivity.
  - sample_ready.
  - left. discriminate.
Defined.

(** The only task of [stuck] cannot be prepared. *)
Lemma aborted_run_reports_only_tasks_witness :
  ∃ err st' evs,
    Run 1 [stuck] init = Ret (Some err) st'
    ∧ reported st' = reported init ++ StartTasks :: evs.
Proof.
  assert (Hrun : ∃ st1 err st',
    report StartTasks init = Ret () st1
    ∧ taskPhase 1 [stuck] st1 = Ret (Some err) st').
  { eexists _, _, _. split; [reflexivity | vm_compute; reflexivity]. }
  destruct Hrun as (st1 & err & st' & Hstart & Hphase).
  destruct (aborted_run_reports_only_tasks 1 [stuck] init st1 err st' Hstart
              Hphase) as (Hrun & evs & Hrep & _).
  exists err, st', evs. split; [exact Hrun | exact Hrep].
Defined.

(** The play [recursive]: its task calls the module that holds it. *)
Lemma self_calling_module_never_returns_witness :
  runTask 1000 recursive again PlayScope ThePlay init = OutOfFuel.
Proof.
  apply (self_calling_module_never_returns recursive again
           (mkModule [again]) []).
  - reflexivity.
  - reflexivity.
  - reflexivity.
  - reflexivity.
  - reflexivity.
  - reflexivity.
  - intros get. by exists "again".
  - intros get. exists "x". split; [done |]. intros get'. by exists ∅.
Defined.

(** The step of the module that [use] calls notifies [h1]. *)
Lemma only_recorded_tasks_notify_witness :
  ∃ st' rs,
    runTask 2 with_steps use PlayScope ThePlay init = Ret None st'
    ∧ Results st' = Results init ++ rs
    ∧ ("h1" ∈ to_notify st' →
       "h1" ∈ to_notify init ∨ ∃ r, r ∈ rs ∧ "h1" ∈ Task.Notify (r_Task r)).
Proof.
  assert (Hrun : ∃ st',
    runTask 2 with_steps use PlayScope ThePlay init = Ret None st')
    by sample_run.
  destruct Hrun as [st' Hrun].
  destruct (only_recorded_tasks_notify 2 with_steps use PlayScope ThePlay
              init None st' Hrun) as (rs & Hres & Hnot).
  exists st', rs. split; [exact Hrun |]. split; [exact Hres | apply Hnot].
Defined.

End RunnerMore.

(** ** builtin.go: the copy command *)

Module CopyFacts.

Import Copy.

Section Run.

Variables FS Mode Owner : Type.
Variable Open : FS → string → option error.
Variable Stat : FS → string → (Mode * option Owner) + error.
Variable Lstat : FS → string → FileInfo + error.
Variable ReadAll : FS → string → string + error.
Variable Sum : string → string.
Variable Dump : string → string.
Variable Join : string → string → string.
Variable Base : string → string.
Variable Getpid : Z.
Variable OpenFile : FS → string → FS + error.
Variable Copy : FS → string → string → FS * option error.
Variable Remove : FS → string → FS.
Variable Chmod : FS → string → Mode → FS + error.
Variable Chown : FS → string → Owner → FS.
Variable Rename : FS → string → string → FS + error.

Local Abbreviation Run :=
  (CopyCmd_Run FS Mode Owner Open Stat Lstat ReadAll Sum Dump Join Base Getpid
     OpenFile Copy Remove Chmod Chown Rename).
Local Abbreviation md5file := (md5file FS Open ReadAll Sum).
Local Abbreviation dest := (dest FS Lstat Join Base).
Local Abbreviation dstDigest := (dstDigest FS Open Lstat ReadAll Sum).
Local Abbreviation tmp := (tmp Getpid).
Local Abbreviation rd := (rd FS Lstat Dump Join Base).

(** X20.  A copy that reports no change has written nothing.  When
    [CopyCmd.Run] returns a result that is not changed, the file system
    is as it was: the destination is there, is no directory, and its
    digest is that of the source. *)
Theorem unchanged_copy_touches_nothing (cmd : CopyCmd) (fs : FS) r fs' :
  Run cmd fs = ((Some r, None), fs') →
  Changed r = false →
  fs' = fs
  ∧ ∃ stat d,
      Lstat fs (Dest cmd) = inl stat
      ∧ IsDir stat = false
      ∧ md5file fs (Src cmd) = inl d
      ∧ md5file fs (Dest cmd) = inl d
      ∧ r = WrapResult false (rd cmd fs d).
Proof.
  intros Hrun Hsame. unfold CopyCmd_Run in Hrun.
  destruct (Open fs (Src cmd)); [done |].
  destruct (Stat fs (Src cmd)) as [[mode owner] |]; [| done].
  destruct (Copy.md5file _ _ _ _ fs (Src cmd)) as [d |] eqn:Hsrc; [| done].
  destruct (decide _) as [Hdst |].
  - injection Hrun as <- <-. split; [done |].
    unfold Copy.dstDigest in Hdst.
    destruct (Lstat fs (Dest cmd)) as [stat |] eqn:Hstat; [| done].
    destruct (IsDir stat) eqn:Hdir; [done |].
    destruct (Copy.md5file _ _ _ _ fs (Dest cmd)) as [d' |] eqn:Hd; [| done].
    injection Hdst as ->. by exists stat, d.
  - repeat (case_match; simplify_eq; try done).
Qed.

(** X21.  A copy reports a change only once the new file is in place.
    When [CopyCmd.Run] returns a changed result, the last thing it did
    was to rename the temporary file, which is named after [Dest] and
    the process, to the destination, and the rename succeeded; the
    digest of the destination had not been found equal to that of the
    source. *)
Theorem changed_copy_was_renamed (cmd : CopyCmd) (fs : FS) r fs' :
  Run cmd fs = ((Some r, None), fs') →
  Changed r = true →
  ∃ d fs5,
    md5file fs (Src cmd) = inl d
    ∧ dstDigest cmd fs ≠ Some d
    ∧ Rename fs5 (Dest cmd ++ ".tmp." ++ itoa Getpid) (dest cmd fs) = inl fs'
    ∧ r = WrapResult true (rd cmd fs d).
Proof.
  intros Hrun Hchanged. unfold CopyCmd_Run in Hrun.
  destruct (Open fs (Src cmd)); [done |].
  destruct (Stat fs (Src cmd)) as [[mode owner] |]; [| done].
  destruct (Copy.md5file _ _ _ _ fs (Src cmd)) as [d |] eqn:Hsrc; [| done].
  destruct (decide _) as [Hdst | Hdst]; [by injection Hrun as <- <- |].
  destruct (OpenFile fs _) as [fs1 |]; [| done].
  destruct (Copy fs1 _ _) as [fs2 [e |]]; [done |].
  destruct (Chmod _ _ mode) as [fs4 |]; [| done].
  destruct (Rename _ _ _) as [fs6 |] eqn:Hren; [| done].
  injection Hrun as <- <-. by eexists d, _.
Qed.

(** X22.  A copy into a directory is never found unchanged.  When
    [Dest] is a directory the file is written to the base name of [Src]
    inside it, and no digest is taken of what is there: the command
    returns a changed result naming that path, or an error, also when the
    same file is already in the directory. *)
Theorem copy_into_directory_always_changes (cmd : CopyCmd) (fs : FS) stat
    res err fs' :
  Lstat fs (Dest cmd) = inl stat →
  IsDir stat = true →
  Run cmd fs = ((res, err), fs') →
  match res with
  | Some r =>
      err = None
      ∧ Changed r = true
      ∧ Result_Get r "dest"
        = Some (VStr (Join (Dest cmd) (Base (Src cmd))))
  | None => err ≠ None
  end.
Proof.
  intros Hstat Hdir Hrun. unfold CopyCmd_Run in Hrun.
  assert (Hnone : dstDigest cmd fs = None).
  { unfold Copy.dstDigest. by rewrite Hstat, Hdir. }
  assert (Hdest : dest cmd fs = Join (Dest cmd) (Base (Src cmd))).
  { unfold Copy.dest. by rewrite Hstat, Hdir. }
  rewrite Hnone in Hrun.
  destruct (Open fs (Src cmd)); [by injection Hrun as <- <- |].
  destruct (Stat fs (Src cmd)) as [[mode owner] |];
    [| by injection Hrun as <- <-].
  destruct (Copy.md5file _ _ _ _ fs (Src cmd)) as [d |];
    [| by injection Hrun as <- <-].
  destruct (decide _); [done |].
  destruct (OpenFile fs _) as [fs1 |]; [| by injection Hrun as <- <-].
  destruct (Copy fs1 _ _) as [fs2 [e |]]; [by injection Hrun as <- <- |].
  destruct (Chmod _ _ mode) as [fs4 |]; [| by injection Hrun as <- <-].
  destruct (Rename _ _ _) as [fs6 |]; [| by injection Hrun as <- <-].
  injection Hrun as <- <- <-. split; [done |]. split; [done |].
  unfold Result_Get, Copy.rd. simpl. by rewrite Hdest.
Qed.

(** X23.  A copy that fails leaves no temporary file and no result.
    When [CopyCmd.Run] returns an error it returns no result, and either
    it has written nothing, or the last thing it did was to remove the
    temporary file; and a result never comes with an error. *)
Theorem failed_copy_cleans_up (cmd : CopyCmd) (fs : FS) res err fs' :
  Run cmd fs = ((res, err), fs') →
  match err with
  | Some _ =>
      res = None
      ∧ (fs' = fs
         ∨ ∃ fs2, fs' = Remove fs2 (Dest cmd ++ ".tmp." ++ itoa Getpid))
  | None => is_Some res
  end.
Proof.
  intros Hrun. unfold CopyCmd_Run in Hrun.
  destruct (Open fs (Src cmd));
    [injection Hrun as <- <- <-; split; [done | by left] |].
  destruct (Stat fs (Src cmd)) as [[mode owner] |];
    [| injection Hrun as <- <- <-; split; [done | by left]].
  destruct (Copy.md5file _ _ _ _ fs (Src cmd)) as [d |];
    [| injection Hrun as <- <- <-; split; [done | by left]].
  destruct (decide _); [by injection Hrun as <- <- <- |].
  destruct (OpenFile fs _) as [fs1 |];
    [| injection Hrun as <- <- <-; split; [done | by left]].
  destruct (Copy fs1 _ _) as [fs2 [e |]];
    [injection Hrun as <- <- <-; split; [done | right; by eexists] |].
  destruct (Chmod _ _ mode) as [fs4 |];
    [| injection Hrun as <- <- <-; split; [done | right; by eexists]].
  destruct (Rename _ _ _) as [fs6 |];
    [| injection Hrun as <- <- <-; split; [done | right; by eexists]].
  by injection Hrun as <- <- <-.
Qed.

End Run.

(** *** The properties at work on the sample *)

Import SampleCopy.

(** Source and destination hold the same. *)
Lemma unchanged_copy_touches_nothing_witness :
  ∃ r fs',
    SampleCopy.Run (mkCopyCmd "a" "b") {[ "a" := "x"; "b" := "x" ]}
      = ((Some r, None), fs')
    ∧ Changed r = false
    ∧ fs' = {[ "a" := "x"; "b" := "x" ]}.
Proof.
  assert (Hrun : ∃ r fs',
    SampleCopy.Run (mkCopyCmd "a" "b") {[ "a" := "x"; "b" := "x" ]}
      = ((Some r, None), fs') ∧ Changed r = false).
  { eexists _, _. split; [vm_compute; reflexivity | reflexivity]. }
  destruct Hrun as (r & fs' & Hrun & Hsame).
  exists r, fs'. split; [exact Hrun |]. split; [exact Hsame |].
  exact (proj1 (unchanged_copy_touches_nothing FS Z unit Open Stat Lstat
                  ReadAll Sum Dump Join Base Getpid OpenFile Copy Remove Chmod
                  Chown Rename _ _ r fs' Hrun Hsame)).
Defined.

(** There is no destination yet. *)
Lemma changed_copy_was_renamed_witness :
  ∃ r fs' fs5,
    SampleCopy.Run (mkCopyCmd "a" "b") {[ "a" := "x" ]} = ((Some r, None), fs')
    ∧ Changed r = true
    ∧ Rename fs5 ("b" ++ ".tmp." ++ itoa Getpid)
        (dest FS Lstat Join Base (mkCopyCmd "a" "b") {[ "a" := "x" ]})
      = inl fs'.
Proof.
  assert (Hrun : ∃ r fs',
    SampleCopy.Run (mkCopyCmd "a" "b") {[ "a" := "x" ]} = ((Some r, None), fs')
    ∧ Changed r = true).
  { eexists _, _. split; [vm_compute; reflexivity | reflexivity]. }
  destruct Hrun as (r & fs' & Hrun & Hchanged).
  destruct (changed_copy_was_renamed FS Z unit Open Stat Lstat ReadAll Sum Dump
              Join Base Getpid OpenFile Copy Remove Chmod Chown Rename _ _ r
              fs' Hrun Hchanged) as (d & fs5 & _ & _ & Hren & _).
  exists r, fs', fs5. split; [exact Hrun |]. split; [exact Hchanged |].
  exact Hren.
Defined.

(** The directory already holds the same file under the same name. *)
Lemma copy_into_directory_always_changes_witness :
  ∃ r fs',
    SampleCopy.Run (mkCopyCmd "a" "dir") {[ "a" := "x"; "dir/a" := "x" ]}
      = ((Some r, None), fs')
    ∧ Changed r = true
    ∧ Result_Get r "dest" = Some (VStr "dir/a").
Proof.
  assert (Hrun : ∃ r fs',
    SampleCopy.Run (mkCopyCmd "a" "dir") {[ "a" := "x"; "dir/a" := "x" ]}
      = ((Some r, None), fs')).
  { eexists _, _. vm_compute. reflexivity. }
  destruct Hrun as (r & fs' & Hrun).
  destruct (copy_into_directory_always_changes FS Z unit Open Stat Lstat
              ReadAll Sum Dump Join Base Getpid OpenFile Copy Remove Chmod
              Chown Rename (mkCopyCmd "a" "dir")
              {[ "a" := "x"; "dir/a" := "x" ]} (mkFileInfo true false)
              (Some r) None fs' eq_refl eq_refl Hrun)
    as (_ & Hchanged & Hdest).
  exists r, fs'. split; [exact Hrun |]. split; [exact Hchanged | exact Hdest].
Defined.

(** There is no source. *)
Lemma failed_copy_cleans_up_witness :
  ∃ e,
    SampleCopy.Run (mkCopyCmd "a" "b") ∅ = ((None, Some e), ∅)
    ∧ (∅ = (∅ : FS)
       ∨ ∃ fs2 : FS, ∅ = Remove fs2 ("b" ++ ".tmp." ++ itoa Getpid)).
Proof.
  assert (Hrun : ∃ e,
    SampleCopy.Run (mkCopyCmd "a" "b") ∅ = ((None, Some e), ∅)).
  { eexists. vm_compute. reflexivity. }
  destruct Hrun as (e & Hrun). exists e. split; [exact Hrun |].
  exact (proj2 (failed_copy_cleans_up FS Z unit Open Stat Lstat ReadAll Sum
                  Dump Join Base Getpid OpenFile Copy Remove Chmod Chown
                  Rename _ _ None (Some e) ∅ Hrun)).
Defined.

End CopyFacts.
